(** * Minidoro: the countdown engine (PomoTimer.ts) and the session
    sequencer (main.ts), as a shallow embedding.

    JavaScript numbers are modelled as [Z]: every quantity of the engine is
    an integer (minutes from the settings, seconds, milliseconds of
    [Date.now()]).  The host's interval scheduler is the set of live
    handles [live] with a counter for the next handle; the callbacks the
    engine invokes are returned as the list of calls made, in order. *)

From Stdlib Require Import QArith Ascii.
From stdpp Require Import gmap strings list.
From stdpp Require Import sorting pretty.

#[local] Set Warnings "-clear-no-such-hyp".

Open Scope Z_scope.

(** ** PomoTimer.ts *)

Inductive TimerState : Set :=
  | Work
  | ShortBreak
  | LongBreak
  | Paused
  | Idle.

#[global] Instance TimerState_eq_dec : EqDecision TimerState.
Proof. solve_decision. Defined.

Record PomodoroSettings : Set := {
  workTime : Z;
  shortBreakTime : Z;
  longBreakTime : Z;
  longBreakInterval : Z;
  autoStartBreaks : bool;
  autoStartPomodoros : bool;
  showDesktopNotification : bool;
  playSound : bool;
  showInStatusBar : bool
}.

Definition DEFAULT_SETTINGS : PomodoroSettings := {|
  workTime := 25;
  shortBreakTime := 5;
  longBreakTime := 15;
  longBreakInterval := 4;
  autoStartBreaks := false;
  autoStartPomodoros := false;
  showDesktopNotification := true;
  playSound := true;
  showInStatusBar := false
|}.

(** The fields of the class.  [settings] and [plugin] are references to
    objects the plugin owns: the settings are passed to the methods that
    read them, the plugin's part of the window is [Window] below. *)
Record PomoTimer : Set := {
  state : TimerState;
  prePauseState : TimerState;
  remainingTime : Z;
  totalTime : Z;
  targetTime : option Z;
  intervalId : option positive
}.

(** [window.setInterval] / [window.clearInterval]: handles are positive
    numbers (so a handle is always truthy), never reused. *)
Record Window : Set := {
  live : gset positive;
  nextHandle : positive
}.

(** The three callbacks handed to the constructor. *)
Inductive Callback : Set :=
  | onTick (remaining total : Z)
  | onStateChange (s : TimerState)
  | onTimerComplete.

#[global] Instance Callback_eq_dec : EqDecision Callback.
Proof. solve_decision. Defined.

Definition new_PomoTimer : PomoTimer := {|
  state := Idle;
  prePauseState := Idle;
  remainingTime := 0;
  totalTime := 0;
  targetTime := None;
  intervalId := None
|}.

Definition new_Window : Window := {| live := ∅; nextHandle := 1%positive |}.

Definition setInterval (w : Window) : positive * Window :=
  (nextHandle w,
   {| live := {[ nextHandle w ]} ∪ live w;
      nextHandle := Pos.succ (nextHandle w) |}).

Definition clearInterval (h : positive) (w : Window) : Window :=
  {| live := live w ∖ {[ h ]}; nextHandle := nextHandle w |}.

(** Field assignments. *)
Definition set_state (s : TimerState) (t : PomoTimer) : PomoTimer :=
  {| state := s; prePauseState := prePauseState t;
     remainingTime := remainingTime t; totalTime := totalTime t;
     targetTime := targetTime t; intervalId := intervalId t |}.

Definition set_prePauseState (s : TimerState) (t : PomoTimer) : PomoTimer :=
  {| state := state t; prePauseState := s;
     remainingTime := remainingTime t; totalTime := totalTime t;
     targetTime := targetTime t; intervalId := intervalId t |}.

Definition set_remainingTime (r : Z) (t : PomoTimer) : PomoTimer :=
  {| state := state t; prePauseState := prePauseState t;
     remainingTime := r; totalTime := totalTime t;
     targetTime := targetTime t; intervalId := intervalId t |}.

Definition set_totalTime (r : Z) (t : PomoTimer) : PomoTimer :=
  {| state := state t; prePauseState := prePauseState t;
     remainingTime := remainingTime t; totalTime := r;
     targetTime := targetTime t; intervalId := intervalId t |}.

Definition set_targetTime (x : option Z) (t : PomoTimer) : PomoTimer :=
  {| state := state t; prePauseState := prePauseState t;
     remainingTime := remainingTime t; totalTime := totalTime t;
     targetTime := x; intervalId := intervalId t |}.

Definition set_intervalId (x : option positive) (t : PomoTimer) : PomoTimer :=
  {| state := state t; prePauseState := prePauseState t;
     remainingTime := remainingTime t; totalTime := totalTime t;
     targetTime := targetTime t; intervalId := x |}.

(** [Math.ceil(x / 1000)] for an integer [x]. *)
Definition ceil_div (x d : Z) : Z := - ((- x) `div` d).

(** [isRunning()]. *)
Definition isRunning (t : PomoTimer) : bool :=
  bool_decide (state t ≠ Idle) && bool_decide (state t ≠ Paused).

(** The result of a method: the object, the window and the callbacks made. *)
Definition Outcome : Set := PomoTimer * Window * list Callback.

(** [stop()]. *)
Definition stop (t : PomoTimer) (w : Window) : Outcome :=
  let '(t1, w1) :=
    match intervalId t with
    | Some h => (set_intervalId None t, clearInterval h w)
    | None => (t, w)
    end in
  let t2 := set_state Idle t1 in
  let t3 := set_remainingTime 0 t2 in
  let t4 := set_totalTime 0 t3 in
  let t5 := set_targetTime None t4 in
  (t5, w1, [onTick (remainingTime t5) (totalTime t5)]).

(** [reset()]. *)
Definition reset (t : PomoTimer) (w : Window) : Outcome :=
  let '(t1, w1, cs) := stop t w in
  (t1, w1, cs ++ [onTick 0 0]).

(** The body of the arrow function given to [setInterval] in [start]. *)
Definition interval_callback (now : Z) (t : PomoTimer) (w : Window) : Outcome :=
  match targetTime t with
  | None => (t, w, [])
  | Some target =>
    if bool_decide (target = 0) then (t, w, [])
    else
      let diff := ceil_div (target - now) 1000 in
      let t1 := set_remainingTime diff t in
      let cs1 := [onTick (remainingTime t1) (totalTime t1)] in
      if bool_decide (remainingTime t1 <= 0) then
        let t2 := set_remainingTime 0 t1 in
        let completedState := state t2 in
        let '(t3, w3, cs2) := stop t2 w in
        (t3, w3, cs1 ++ cs2 ++ [onTimerComplete; onStateChange completedState])
      else (t1, w, cs1)
  end.

(** The host runs the callback of a handle only while the handle is live. *)
Definition fire (h : positive) (now : Z) (t : PomoTimer) (w : Window) : Outcome :=
  if bool_decide (h ∈ live w) then interval_callback now t w else (t, w, []).

(** [start(state)]; [now] is the value of [Date.now()]. *)
Definition start (cfg : PomodoroSettings) (now : Z) (s : TimerState)
    (t : PomoTimer) (w : Window) : Outcome :=
  if bool_decide (s = Idle) || bool_decide (s = Paused) then (t, w, [])
  else
    let t1 := set_state s t in
    let t2 :=
      if bool_decide (remainingTime t1 <= 0) then
        let t' :=
          match state t1 with
          | Work => set_remainingTime (workTime cfg * 60) t1
          | ShortBreak => set_remainingTime (shortBreakTime cfg * 60) t1
          | LongBreak => set_remainingTime (longBreakTime cfg * 60) t1
          | _ => t1
          end in
        set_totalTime (remainingTime t') t'
      else t1 in
    let t3 := set_targetTime (Some (now + remainingTime t2 * 1000)) t2 in
    let w1 :=
      match intervalId t3 with
      | Some h => clearInterval h w
      | None => w
      end in
    let '(h, w2) := setInterval w1 in
    let t4 := set_intervalId (Some h) t3 in
    (t4, w2, [onTick (remainingTime t4) (totalTime t4)]).

(** [pause()]. *)
Definition pause (t : PomoTimer) (w : Window) : Outcome :=
  match intervalId t with
  | Some h =>
    if bool_decide (state t ≠ Idle) && bool_decide (state t ≠ Paused) then
      let w1 := clearInterval h w in
      let t1 := set_intervalId None t in
      let t2 := set_prePauseState (state t1) t1 in
      let t3 := set_state Paused t2 in
      let t4 := set_targetTime None t3 in
      (t4, w1, [onTick (remainingTime t4) (totalTime t4)])
    else (t, w, [])
  | None => (t, w, [])
  end.

(** [resume()]. *)
Definition resume (cfg : PomodoroSettings) (now : Z)
    (t : PomoTimer) (w : Window) : Outcome :=
  if bool_decide (state t = Paused) then start cfg now (prePauseState t) t w
  else (t, w, []).

Definition getState (t : PomoTimer) : TimerState := state t.

Definition getRemainingTime (t : PomoTimer) : Z := remainingTime t.

Definition getTotalTime (t : PomoTimer) : Z := totalTime t.

(** Projections of an outcome. *)
Definition timer_of (o : Outcome) : PomoTimer := o.1.1.

Definition window_of (o : Outcome) : Window := o.1.2.

Definition calls_of (o : Outcome) : list Callback := o.2.

(** ** Clients of the engine

    A client calls the public methods in any order, at any clock value and
    with any settings object (the plugin may swap it with [updateSettings]
    between calls); the host fires the interval callbacks. *)

Inductive Call : Set :=
  | call_start (cfg : PomodoroSettings) (now : Z) (s : TimerState)
  | call_pause
  | call_resume (cfg : PomodoroSettings) (now : Z)
  | call_stop
  | call_reset
  | call_fire (h : positive) (now : Z).

Definition run_call (c : Call) (t : PomoTimer) (w : Window) : Outcome :=
  match c with
  | call_start cfg now s => start cfg now s t w
  | call_pause => pause t w
  | call_resume cfg now => resume cfg now t w
  | call_stop => stop t w
  | call_reset => reset t w
  | call_fire h now => fire h now t w
  end.

(** Runs the calls in order from [(t, w)] and collects the callbacks. *)
Fixpoint run_calls (cs : list Call) (t : PomoTimer) (w : Window) : Outcome :=
  match cs with
  | [] => (t, w, [])
  | c :: cs' =>
    let '(t1, w1, out1) := run_call c t w in
    let '(t2, w2, out2) := run_calls cs' t1 w1 in
    (t2, w2, out1 ++ out2)
  end.

Inductive reachable : PomoTimer → Window → Prop :=
  | reachable_new : reachable new_PomoTimer new_Window
  | reachable_call c t w :
      reachable t w →
      reachable (timer_of (run_call c t w)) (window_of (run_call c t w)).

(** The session kinds, as opposed to the control states. *)
Definition is_mode (s : TimerState) : Prop :=
  s = Work ∨ s = ShortBreak ∨ s = LongBreak.

Definition handles (o : option positive) : gset positive :=
  match o with
  | Some h => {[ h ]}
  | None => ∅
  end.

Record engine_inv (t : PomoTimer) (w : Window) : Prop := {
  inv_target : is_Some (targetTime t) ↔ is_mode (state t);
  inv_interval : is_Some (intervalId t) ↔ is_mode (state t);
  inv_live : live w = handles (intervalId t);
  inv_paused : state t = Paused → is_mode (prePauseState t);
  inv_idle : state t = Idle → remainingTime t = 0 ∧ totalTime t = 0
}.

(** Number of completion notifications among the callbacks made. *)
Definition completions (cs : list Callback) : nat :=
  length (filter (λ c, c = onTimerComplete) cs).

Definition state_changes (cs : list Callback) : list TimerState :=
  omap (λ c, match c with onStateChange s => Some s | _ => None end) cs.

(** Seconds of a fresh session of kind [s], as [start] computes them. *)
Definition fresh_seconds (cfg : PomodoroSettings) (s : TimerState) : Z :=
  match s with
  | Work => workTime cfg * 60
  | ShortBreak => shortBreakTime cfg * 60
  | LongBreak => longBreakTime cfg * 60
  | _ => 0
  end.

(** The minutes configured for a session kind. *)
Definition configured_minutes (cfg : PomodoroSettings) (s : TimerState) : option Z :=
  match s with
  | Work => Some (workTime cfg)
  | ShortBreak => Some (shortBreakTime cfg)
  | LongBreak => Some (longBreakTime cfg)
  | _ => None
  end.

(** ** A session that is paused and resumed *)

Section PauseResume.

Variables (cfg : PomodoroSettings) (t : PomoTimer) (w : Window).

(** [start(m)] at [t0], the ticks that fire at the times [ticks], [pause()],
    and [resume()] at [tr]. *)
Variables (t0 : Z) (m : TimerState) (ticks : list Z) (tr : Z).

Definition started : Outcome := start cfg t0 m t w.

Definition ticked : Outcome :=
  run_calls (call_fire (nextHandle w) <$> ticks)
            (timer_of started) (window_of started).

Definition paused : Outcome := pause (timer_of ticked) (window_of ticked).

Definition resumed : Outcome :=
  resume cfg tr (timer_of paused) (window_of paused).

(** The claim as it is written, for a pause [Δ] seconds after the start:
    the tick of the resume reports [r - Δ] within one second, and is not
    negative. *)
Definition resume_reports_elapsed (Δ : Z) : Prop :=
  let r := remainingTime (timer_of started) in
  ∃ v tot, calls_of resumed = [onTick v tot] ∧
           0 ≤ v ∧ r - Δ - 1 ≤ v ≤ r - Δ + 1.

(** The time at which the engine last computed [remainingTime] before the
    pause: the last tick, or the start itself. *)
Definition last_update : Z := default t0 (last ticks).

End PauseResume.

(** ** main.ts: the plugin

    The view (header button, panel, pie chart, [updateUI]) only reads the
    state and is left out; what the plugin shows or plays is recorded in
    [shown].  The two [setTimeout] calls of the sequencer are kept as pending
    entries with their due time.  The engine's callbacks never call back
    into the engine, so they are run on the calls an engine method returns. *)

(** What the plugin issues: a [Notice], the call of [playNotificationSound]
    and the call of [showDesktopNotification] (which shows the notification
    when the permission is granted). *)
Inductive Effect : Set :=
  | Notice (message : string)
  | NotificationSound
  | DesktopNotification (title : string).

#[global] Instance Effect_eq_dec : EqDecision Effect.
Proof. solve_decision. Defined.

Inductive Timeout : Set :=
  | AutoStart          (* the arrow function of [advanceToNextMode], 1000 ms *)
  | AcknowledgeLater.  (* the arrow function of [onTimerComplete], 10000 ms *)

Record PomodoroPlugin : Set := {
  settings : PomodoroSettings;
  timer : PomoTimer;
  window : Window;
  currentMode : TimerState;
  completedPomodoros : Z;
  nextMode : TimerState;
  isSessionComplete : bool;
  isPanelPinned : bool;
  timeouts : list (Z * Timeout);
  shown : list Effect
}.

(** The plugin after [onload] with the settings read from disk. *)
Definition new_PomodoroPlugin (cfg : PomodoroSettings) : PomodoroPlugin := {|
  settings := cfg;
  timer := new_PomoTimer;
  window := new_Window;
  currentMode := Work;
  completedPomodoros := 0;
  nextMode := ShortBreak;
  isSessionComplete := false;
  isPanelPinned := false;
  timeouts := [];
  shown := []
|}.

Definition set_settings (x : PomodoroSettings) (p : PomodoroPlugin) :=
  {| settings := x; timer := timer p; window := window p;
     currentMode := currentMode p; completedPomodoros := completedPomodoros p;
     nextMode := nextMode p; isSessionComplete := isSessionComplete p;
     isPanelPinned := isPanelPinned p; timeouts := timeouts p;
     shown := shown p |}.

Definition set_engine (x : PomoTimer) (y : Window) (p : PomodoroPlugin) :=
  {| settings := settings p; timer := x; window := y;
     currentMode := currentMode p; completedPomodoros := completedPomodoros p;
     nextMode := nextMode p; isSessionComplete := isSessionComplete p;
     isPanelPinned := isPanelPinned p; timeouts := timeouts p;
     shown := shown p |}.

Definition set_currentMode (x : TimerState) (p : PomodoroPlugin) :=
  {| settings := settings p; timer := timer p; window := window p;
     currentMode := x; completedPomodoros := completedPomodoros p;
     nextMode := nextMode p; isSessionComplete := isSessionComplete p;
     isPanelPinned := isPanelPinned p; timeouts := timeouts p;
     shown := shown p |}.

Definition set_completedPomodoros (x : Z) (p : PomodoroPlugin) :=
  {| settings := settings p; timer := timer p; window := window p;
     currentMode := currentMode p; completedPomodoros := x;
     nextMode := nextMode p; isSessionComplete := isSessionComplete p;
     isPanelPinned := isPanelPinned p; timeouts := timeouts p;
     shown := shown p |}.

Definition set_nextMode (x : TimerState) (p : PomodoroPlugin) :=
  {| settings := settings p; timer := timer p; window := window p;
     currentMode := currentMode p; completedPomodoros := completedPomodoros p;
     nextMode := x; isSessionComplete := isSessionComplete p;
     isPanelPinned := isPanelPinned p; timeouts := timeouts p;
     shown := shown p |}.

Definition set_isSessionComplete (x : bool) (p : PomodoroPlugin) :=
  {| settings := settings p; timer := timer p; window := window p;
     currentMode := currentMode p; completedPomodoros := completedPomodoros p;
     nextMode := nextMode p; isSessionComplete := x;
     isPanelPinned := isPanelPinned p; timeouts := timeouts p;
     shown := shown p |}.

Definition set_isPanelPinned (x : bool) (p : PomodoroPlugin) :=
  {| settings := settings p; timer := timer p; window := window p;
     currentMode := currentMode p; completedPomodoros := completedPomodoros p;
     nextMode := nextMode p; isSessionComplete := isSessionComplete p;
     isPanelPinned := x; timeouts := timeouts p; shown := shown p |}.

Definition set_timeouts (x : list (Z * Timeout)) (p : PomodoroPlugin) :=
  {| settings := settings p; timer := timer p; window := window p;
     currentMode := currentMode p; completedPomodoros := completedPomodoros p;
     nextMode := nextMode p; isSessionComplete := isSessionComplete p;
     isPanelPinned := isPanelPinned p; timeouts := x; shown := shown p |}.

(** [new Notice(..)], the sound and the desktop notification. *)
Definition show (e : Effect) (p : PomodoroPlugin) :=
  {| settings := settings p; timer := timer p; window := window p;
     currentMode := currentMode p; completedPomodoros := completedPomodoros p;
     nextMode := nextMode p; isSessionComplete := isSessionComplete p;
     isPanelPinned := isPanelPinned p; timeouts := timeouts p;
     shown := shown p ++ [e] |}.

(** [setTimeout(callback, delay)] called at time [now]. *)
Definition setTimeout (k : Timeout) (delay now : Z) (p : PomodoroPlugin) :=
  set_timeouts (timeouts p ++ [(now + delay, k)]) p.

Definition getModeText (p : PomodoroPlugin) : string :=
  if bool_decide (currentMode p = Work) then "Focus"
  else if bool_decide (currentMode p = ShortBreak) then "Short break"
  else "Long break".

(** [a % b === 0]: the remainder truncates towards zero and is [NaN], hence
    not [0], for [b = 0]. *)
Definition rem_is_zero (a b : Z) : bool :=
  bool_decide (b ≠ 0) && bool_decide (a `rem` b = 0).

(** [advanceToNextMode()], called at time [now]. *)
Definition advanceToNextMode (now : Z) (p : PomodoroPlugin) : PomodoroPlugin :=
  let p1 :=
    if bool_decide (currentMode p = Work) then
      let p' := set_completedPomodoros (completedPomodoros p + 1) p in
      if rem_is_zero (completedPomodoros p')
                     (longBreakInterval (settings p'))
      then set_nextMode LongBreak p'
      else set_nextMode ShortBreak p'
    else set_nextMode Work p in
  if (bool_decide (currentMode p1 = Work) && autoStartBreaks (settings p1))
     || (bool_decide (currentMode p1 ≠ Work)
         && autoStartPomodoros (settings p1))
  then setTimeout AutoStart 1000 now p1
  else p1.

(** [acknowledgeSessionComplete()]. *)
Definition acknowledgeSessionComplete (p : PomodoroPlugin) : PomodoroPlugin :=
  let p1 := set_isSessionComplete false p in
  if negb (isRunning (timer p1)) then set_currentMode (nextMode p1) p1
  else p1.

(** The private method [onTimerComplete()] of the plugin, the third callback
    given to the engine. *)
Definition plugin_onTimerComplete (now : Z) (p : PomodoroPlugin) : PomodoroPlugin :=
  let p1 := set_isSessionComplete true p in
  let p2 := if playSound (settings p1) then show NotificationSound p1 else p1 in
  let p3 :=
    if showDesktopNotification (settings p2)
    then show (DesktopNotification
                 ("Minidoro - " +:+ getModeText p2 +:+ " complete")) p2
    else p2 in
  let sessionType := getModeText p3 in
  let p4 := show (Notice (sessionType +:+ " session completed!")) p3 in
  let p5 := advanceToNextMode now p4 in
  setTimeout AcknowledgeLater 10000 now p5.

(** The callbacks as the constructor call in [onload] binds them:
    [updateUI] for the tick, the empty [onTimerCompletion] for the state
    change, [onTimerComplete] for the completion. *)
Definition handle_callback (now : Z) (p : PomodoroPlugin) (c : Callback) : PomodoroPlugin :=
  match c with
  | onTick _ _ => p
  | onStateChange _ => p
  | onTimerComplete => plugin_onTimerComplete now p
  end.

(** Calls an engine method on [this.timer] and runs the callbacks it made. *)
Definition on_timer (now : Z) (f : PomoTimer → Window → Outcome)
    (p : PomodoroPlugin) : PomodoroPlugin :=
  let o := f (timer p) (window p) in
  foldl (handle_callback now) (set_engine (timer_of o) (window_of o) p)
        (calls_of o).

(** [handlePauseResumeClick], at time [now]. *)
Definition handlePauseResumeClick (now : Z) (p : PomodoroPlugin) : PomodoroPlugin :=
  if isSessionComplete p then acknowledgeSessionComplete p
  else if isRunning (timer p) || bool_decide (getState (timer p) = Paused) then
    if bool_decide (getState (timer p) = Paused)
    then on_timer now (resume (settings p) now) p
    else on_timer now pause p
  else on_timer now (start (settings p) now (currentMode p)) p.

(** [handleResetClick]; [reset] makes no completion call, so the time given
    to [on_timer] is not read. *)
Definition handleResetClick (p : PomodoroPlugin) : PomodoroPlugin :=
  set_isSessionComplete false (on_timer 0 reset p).

(** [handleCycleModeClick]. *)
Definition handleCycleModeClick (p : PomodoroPlugin) : PomodoroPlugin :=
  if bool_decide (getState (timer p) ≠ Idle) || isRunning (timer p) then
    show (Notice "Reset the timer to switch modes") p
  else if isSessionComplete p then acknowledgeSessionComplete p
  else
    let p1 :=
      match currentMode p with
      | Work => set_currentMode ShortBreak p
      | ShortBreak => set_currentMode LongBreak p
      | LongBreak => set_currentMode Work p
      | _ => p
      end in
    show (Notice ("Switched to " +:+ getModeText p1 +:+ " mode")) p1.

(** The [onclick] of the pie button. *)
Definition pieButton_onclick (p : PomodoroPlugin) : PomodoroPlugin :=
  if isSessionComplete p then acknowledgeSessionComplete p
  else set_isPanelPinned (negb (isPanelPinned p)) p.

(** The body of a pending timeout, run at time [now]. *)
Definition run_timeout (k : Timeout) (now : Z) (p : PomodoroPlugin) : PomodoroPlugin :=
  match k with
  | AutoStart =>
    if isSessionComplete p then
      let p1 := set_currentMode (nextMode p) p in
      on_timer now (start (settings p1) now (currentMode p1)) p1
    else p
  | AcknowledgeLater => acknowledgeSessionComplete p
  end.

(** The host runs the [i]-th pending timeout once it is due. *)
Definition fire_timeout (i : nat) (now : Z) (p : PomodoroPlugin) : PomodoroPlugin :=
  match timeouts p !! i with
  | Some (due, k) =>
    if bool_decide (due ≤ now)
    then run_timeout k now (set_timeouts (delete i (timeouts p)) p)
    else p
  | None => p
  end.

(** The host fires the interval callback of handle [h]. *)
Definition plugin_tick (h : positive) (now : Z) (p : PomodoroPlugin) : PomodoroPlugin :=
  on_timer now (fire h now) p.

(** The default settings with automatic breaks switched on. *)
Definition auto_break_settings : PomodoroSettings := {|
  workTime := 25;
  shortBreakTime := 5;
  longBreakTime := 15;
  longBreakInterval := 4;
  autoStartBreaks := true;
  autoStartPomodoros := false;
  showDesktopNotification := true;
  playSound := true;
  showInStatusBar := false
|}.

(** The default settings with automatic pomodoros switched on. *)
Definition auto_pomodoro_settings : PomodoroSettings := {|
  workTime := 25;
  shortBreakTime := 5;
  longBreakTime := 15;
  longBreakInterval := 4;
  autoStartBreaks := false;
  autoStartPomodoros := true;
  showDesktopNotification := true;
  playSound := true;
  showInStatusBar := false
|}.

(** What the tick contract asks of the numbers passed to [onTick]. *)
Definition nonneg_ticks (cs : list Callback) : Prop :=
  Forall (λ c, match c with
               | onTick remaining total => 0 ≤ remaining ∧ 0 ≤ total
               | _ => True
               end) cs.

Definition nonneg_settings (cfg : PomodoroSettings) : Prop :=
  0 ≤ workTime cfg ∧ 0 ≤ shortBreakTime cfg ∧ 0 ≤ longBreakTime cfg.

Definition nonneg_times (t : PomoTimer) : Prop :=
  0 ≤ remainingTime t ∧ 0 ≤ totalTime t.

(** What can happen to the plugin: the user's clicks and commands, a change
    of the settings, and the host firing an interval or a due timeout. *)
Inductive Event : Set :=
  | PauseResumeClick (now : Z)
  | ResetClick
  | CycleModeClick
  | PieButtonClick
  | SaveSettings (cfg : PomodoroSettings)
  | IntervalFires (h : positive) (now : Z)
  | TimeoutFires (i : nat) (now : Z).

Definition plugin_step (p : PomodoroPlugin) (e : Event) : PomodoroPlugin :=
  match e with
  | PauseResumeClick now => handlePauseResumeClick now p
  | ResetClick => handleResetClick p
  | CycleModeClick => handleCycleModeClick p
  | PieButtonClick => pieButton_onclick p
  | SaveSettings cfg => set_settings cfg p
  | IntervalFires h now => plugin_tick h now p
  | TimeoutFires i now => fire_timeout i now p
  end.

Inductive plugin_reachable : PomodoroPlugin → Prop :=
  | plugin_loaded cfg : plugin_reachable (new_PomodoroPlugin cfg)
  | plugin_event p e :
      plugin_reachable p → plugin_reachable (plugin_step p e).

(** The Work sessions completed so far, as the user was told: the number of
    notices of a completed focus session. *)
Definition focus_completions (p : PomodoroPlugin) : Z :=
  Z.of_nat (length (filter (λ e, e = Notice "Focus session completed!")
                           (shown p))).

(** The count kept by the plugin is the number of Work completions. *)
Definition counts_focus (p : PomodoroPlugin) : Prop :=
  completedPomodoros p = focus_completions p.

(** ** Clients that configure positive durations *)

(** The settings tab only offers durations of at least one minute. *)
Definition positive_settings (cfg : PomodoroSettings) : Prop :=
  0 < workTime cfg ∧ 0 < shortBreakTime cfg ∧ 0 < longBreakTime cfg.

Definition positive_call (c : Call) : Prop :=
  match c with
  | call_start cfg _ _ | call_resume cfg _ => positive_settings cfg
  | _ => True
  end.

(** The first arguments of the [onTick] calls, in order. *)
Definition reported (cs : list Callback) : list Z :=
  omap (λ c, match c with onTick r _ => Some r | _ => None end) cs.

(** With positive durations a session that is not [Idle] has time left and
    an [Idle] engine has none. *)
Definition positive_times (t : PomoTimer) : Prop :=
  (state t = Idle → remainingTime t = 0 ∧ totalTime t = 0) ∧
  (state t ≠ Idle → 0 < remainingTime t ∧ 0 < totalTime t).

(** ** Invariants of the sequencer *)

(** Both modes the sequencer holds are session kinds. *)
Definition modes_ok (p : PomodoroPlugin) : Prop :=
  is_mode (currentMode p) ∧ is_mode (nextMode p).

(** A pending completion is backed by a scheduled acknowledgement. *)
Definition acknowledgement_pending (p : PomodoroPlugin) : Prop :=
  isSessionComplete p = true →
  ∃ due, (due, AcknowledgeLater) ∈ timeouts p.

(** ** The view: [updateUI]

    What [updateUI] puts on the three elements of the header button, for the
    case that they exist (it returns at once when one is missing).  The
    progress is the exact quotient, of which the JavaScript number is the
    nearest double; [--circumference], which depends on the rendered radius,
    is left out. *)

Fixpoint pad (k : nat) (c : Ascii.ascii) (s : string) : string :=
  match k with
  | O => s
  | S k' => String c (pad k' c s)
  end.

(** [s.padStart(n, c)] for a one-character [c]. *)
Definition padStart (n : nat) (c : Ascii.ascii) (s : string) : string :=
  pad (n - String.length s) c s.

(** [z.toString()] for an integer [z]. *)
Definition toString (z : Z) : string := pretty z.

Record View : Set := {
  pieClasses : list string;
  panelModeClasses : list string;
  progress : Q;
  sessionCompleteClass : bool;
  panelTimeText : string;
  panelModeText : string
}.

(** [getIdleTimeText]. *)
Definition getIdleTimeText (p : PomodoroPlugin) : string :=
  let time :=
    if bool_decide (currentMode p = Work) then workTime (settings p)
    else if bool_decide (currentMode p = ShortBreak)
         then shortBreakTime (settings p)
         else longBreakTime (settings p) in
  toString time +:+ ":00".

(** [updateUI(remainingTime, totalTime)]. *)
Definition updateUI (p : PomodoroPlugin) (remaining total : Z) : View :=
  let timerState := getState (timer p) in
  let isWorkMode := bool_decide (currentMode p = Work) in
  let modeClass :=
    if isWorkMode then "minidoro-work-mode" else "minidoro-break-mode" in
  let '(progress, progressClasses) :=
    if bool_decide (timerState = Idle) then
      (1%Q, ["minidoro-progress-idle"])
    else
      let progress :=
        if bool_decide (0 < total)
        then Qmake remaining (Z.to_pos total) else 0%Q in
      (progress,
       if Qle_bool progress 0 then ["minidoro-progress-complete"] else []) in
  let minutes := padStart 2 "0"%char (toString (remaining `div` 60)) in
  let seconds := padStart 2 "0"%char (toString (remaining `rem` 60)) in
  {| pieClasses := modeClass :: progressClasses;
     panelModeClasses :=
       [modeClass;
        if bool_decide (timerState = Idle) && negb (isRunning (timer p))
        then "mode-enabled" else "mode-disabled"];
     progress := progress;
     sessionCompleteClass := isSessionComplete p;
     panelTimeText :=
       if bool_decide (timerState = Idle) then getIdleTimeText p
       else minutes +:+ ":" +:+ seconds;
     panelModeText := getModeText p |}.

(** A change in the settings tab: the [onChange] assigns the field ([cfg] is
    the settings object after the assignment) and [saveSettings()] hands the
    object to the engine and renders [updateUI(0, 0)]. *)
Definition saveSettings (cfg : PomodoroSettings) (p : PomodoroPlugin)
    : PomodoroPlugin * View :=
  let p1 := set_settings cfg p in
  (p1, updateUI p1 0 0).

(** [onunload]: the hide timeout of the panel is cleared, the header button
    is removed ([removeHeaderButton] also unpins the panel) and the engine is
    stopped.  The timeouts set by [onTimerComplete] and [advanceToNextMode]
    are plain [setTimeout]s, which nothing cancels: they stay pending. *)
Definition onunload (p : PomodoroPlugin) : PomodoroPlugin :=
  on_timer 0 stop (set_isPanelPinned false p).

(** * Properties *)

Example start_work_default :
  start DEFAULT_SETTINGS 5000 Work new_PomoTimer new_Window =
  ({| state := Work; prePauseState := Idle; remainingTime := 1500;
      totalTime := 1500; targetTime := Some 1505000;
      intervalId := Some 1%positive |},
   {| live := {[ 1%positive ]} ∪ ∅; nextHandle := 2%positive |},
   [onTick 1500 1500]).
Proof. reflexivity. Qed.

(** ** Basic facts *)

Lemma is_mode_cases s : is_mode s ∨ s = Paused ∨ s = Idle.
Proof. unfold is_mode. destruct s; auto. Qed.

Lemma is_mode_not_control s : is_mode s ↔ s ≠ Idle ∧ s ≠ Paused.
Proof. unfold is_mode. destruct s; naive_solver. Qed.

Lemma isRunning_is_mode t : isRunning t = true ↔ is_mode (state t).
Proof.
  unfold isRunning. rewrite andb_true_iff, !bool_decide_eq_true.
  symmetry. apply is_mode_not_control.
Qed.

Lemma ceil_div_spec x q :
  ceil_div x 1000 = q ↔ 1000 * (q - 1) < x ≤ 1000 * q.
Proof.
  unfold ceil_div.
  pose proof (Z.div_mod (- x) 1000 ltac:(lia)) as Hd.
  pose proof (Z.mod_pos_bound (- x) 1000 ltac:(lia)) as Hm.
  lia.
Qed.

Lemma ceil_div_pos x : 0 < ceil_div x 1000 ↔ 0 < x.
Proof.
  pose proof (proj1 (ceil_div_spec x (ceil_div x 1000)) eq_refl). lia.
Qed.

Lemma ceil_div_exact q : ceil_div (1000 * q) 1000 = q.
Proof. apply ceil_div_spec. lia. Qed.

Lemma stop_inv t w : engine_inv t w →
  engine_inv (timer_of (stop t w)) (window_of (stop t w)).
Proof.
  intros [Ht Hi Hl Hp Hz]. unfold stop, timer_of, window_of.
  destruct (intervalId t) as [h|] eqn:E; simpl in *;
    (split; simpl; rewrite ?E; simpl;
     [ unfold is_mode; split; [intros [? ?] | intros ?]; naive_solver
     | unfold is_mode; split; [intros [? ?] | intros ?]; naive_solver
     | rewrite ?Hl; set_solver
     | discriminate
     | auto ]).
Qed.

Lemma start_control cfg now s t w :
  s = Idle ∨ s = Paused → start cfg now s t w = (t, w, []).
Proof. intros [-> | ->]; reflexivity. Qed.

Lemma start_mode cfg now s t w :
  is_mode s →
  start cfg now s t w =
  let fresh := bool_decide (remainingTime t ≤ 0) in
  let r := if fresh then fresh_seconds cfg s else remainingTime t in
  let tot := if fresh then fresh_seconds cfg s else totalTime t in
  ({| state := s; prePauseState := prePauseState t;
      remainingTime := r; totalTime := tot;
      targetTime := Some (now + r * 1000);
      intervalId := Some (nextHandle w) |},
   {| live := {[ nextHandle w ]} ∪ (live w ∖ handles (intervalId t));
      nextHandle := Pos.succ (nextHandle w) |},
   [onTick r tot]).
Proof.
  intros Hm. unfold start.
  assert (bool_decide (s = Idle) || bool_decide (s = Paused) = false) as ->.
  { destruct Hm as [-> | [-> | ->]]; reflexivity. }
  assert (live w ∖ ∅ = live w) as Hnone by set_solver.
  destruct t as [st pp r tot tg [h|]]; simpl;
    destruct (bool_decide (r ≤ 0)); simpl;
    destruct Hm as [-> | [-> | ->]]; simpl; rewrite ?Hnone; reflexivity.
Qed.

Lemma start_inv cfg now s t w : engine_inv t w →
  engine_inv (timer_of (start cfg now s t w)) (window_of (start cfg now s t w)).
Proof.
  intros Hinv.
  destruct (is_mode_cases s) as [Hm | Hc].
  - rewrite start_mode by done. destruct Hinv as [Ht Hi Hl Hp Hz].
    split; simpl.
    + split; [done | eauto].
    + split; [done | eauto].
    + rewrite Hl. set_solver.
    + intros ->. destruct Hm as [?|[?|?]]; discriminate.
    + intros ->. destruct Hm as [?|[?|?]]; discriminate.
  - rewrite start_control by tauto. done.
Qed.

Lemma pause_inv t w : engine_inv t w →
  engine_inv (timer_of (pause t w)) (window_of (pause t w)).
Proof.
  intros Hinv. unfold pause, timer_of, window_of.
  destruct (intervalId t) as [h|] eqn:E; simpl; [|done].
  destruct (bool_decide_reflect (state t ≠ Idle)) as [H1|H1]; simpl; [|done].
  destruct (bool_decide_reflect (state t ≠ Paused)) as [H2|H2]; simpl; [|done].
  destruct Hinv as [Ht Hi Hl Hp Hz].
  split; simpl.
  - unfold is_mode. split; [intros [? ?] | intros ?]; naive_solver.
  - unfold is_mode. split; [intros [? ?] | intros ?]; naive_solver.
  - rewrite Hl, E. set_solver.
  - intros _. apply is_mode_not_control. done.
  - discriminate.
Qed.

Lemma resume_inv cfg now t w : engine_inv t w →
  engine_inv (timer_of (resume cfg now t w)) (window_of (resume cfg now t w)).
Proof.
  intros Hinv. unfold resume.
  destruct (bool_decide (state t = Paused)); [by apply start_inv | done].
Qed.

Lemma reset_stop t w :
  timer_of (reset t w) = timer_of (stop t w) ∧
  window_of (reset t w) = window_of (stop t w) ∧
  calls_of (reset t w) = calls_of (stop t w) ++ [onTick 0 0].
Proof. unfold reset. destruct (stop t w) as [[t1 w1] cs]. done. Qed.

Lemma reset_inv t w : engine_inv t w →
  engine_inv (timer_of (reset t w)) (window_of (reset t w)).
Proof.
  intros Hinv. destruct (reset_stop t w) as (-> & -> & _). by apply stop_inv.
Qed.

Lemma interval_callback_inv now t w : engine_inv t w →
  engine_inv (timer_of (interval_callback now t w))
             (window_of (interval_callback now t w)).
Proof.
  intros Hinv. unfold interval_callback.
  destruct (targetTime t) as [target|] eqn:E; [|done].
  destruct (bool_decide (target = 0)); [done|].
  simpl. destruct (bool_decide_reflect (ceil_div (target - now) 1000 ≤ 0)).
  - set (t2 := set_remainingTime 0 _).
    assert (engine_inv t2 w) as Hinv2.
    { destruct Hinv as [Ht Hi Hl Hp Hz]. split; simpl; try done.
      intros Hs. split; [done|]. by apply Hz. }
    pose proof (stop_inv _ _ Hinv2) as H.
    destruct (stop t2 w) as [[t3 w3] cs2]. exact H.
  - destruct Hinv as [Ht Hi Hl Hp Hz]. split; simpl; try done.
    intros Hs. exfalso.
    assert (is_mode (state t)) as Hm by (apply Ht; rewrite E; eauto).
    rewrite Hs in Hm. destruct Hm as [?|[?|?]]; discriminate.
Qed.

Lemma fire_inv h now t w : engine_inv t w →
  engine_inv (timer_of (fire h now t w)) (window_of (fire h now t w)).
Proof.
  intros Hinv. unfold fire.
  destruct (bool_decide (h ∈ live w)); [by apply interval_callback_inv | done].
Qed.

Lemma new_inv : engine_inv new_PomoTimer new_Window.
Proof.
  split; simpl; try done.
  - unfold is_mode. split; [intros [? ?] | intros ?]; naive_solver.
  - unfold is_mode. split; [intros [? ?] | intros ?]; naive_solver.
Qed.

Lemma run_call_inv c t w : engine_inv t w →
  engine_inv (timer_of (run_call c t w)) (window_of (run_call c t w)).
Proof.
  destruct c; simpl; eauto using start_inv, pause_inv, resume_inv, stop_inv,
    reset_inv, fire_inv.
Qed.

Lemma reachable_inv t w : reachable t w → engine_inv t w.
Proof. induction 1; eauto using new_inv, run_call_inv. Qed.

Lemma configured_minutes_mode cfg s d :
  configured_minutes cfg s = Some d → is_mode s ∧ fresh_seconds cfg s = d * 60.
Proof.
  unfold is_mode. destruct s; simpl; intros [= <-]; auto.
Qed.

Lemma stop_spec t w :
  stop t w =
  ({| state := Idle; prePauseState := prePauseState t; remainingTime := 0;
      totalTime := 0; targetTime := None; intervalId := None |},
   {| live := live w ∖ handles (intervalId t); nextHandle := nextHandle w |},
   [onTick 0 0]).
Proof.
  unfold stop. destruct t as [st pp r tot tg [h|]]; simpl; [done|].
  destruct w as [l n]; simpl. do 2 f_equal. f_equal. set_solver.
Qed.

Lemma pause_mode t w h :
  is_mode (state t) → intervalId t = Some h →
  pause t w =
  ({| state := Paused; prePauseState := state t;
      remainingTime := remainingTime t; totalTime := totalTime t;
      targetTime := None; intervalId := None |},
   clearInterval h w,
   [onTick (remainingTime t) (totalTime t)]).
Proof.
  intros Hm Hh. unfold pause. rewrite Hh.
  apply is_mode_not_control in Hm as [H1 H2].
  rewrite !bool_decide_eq_true_2 by done. reflexivity.
Qed.

Lemma pause_control t w :
  ¬ is_mode (state t) → pause t w = (t, w, []).
Proof.
  intros Hm. unfold pause. destruct (intervalId t); [|done].
  destruct (bool_decide_reflect (state t ≠ Idle)); simpl; [|done].
  destruct (bool_decide_reflect (state t ≠ Paused)); simpl; [|done].
  exfalso. apply Hm, is_mode_not_control. done.
Qed.

(** ** The claims on the engine *)



(** C5: in every reachable state [targetTime] is set exactly when the state
    is a session kind (neither [Idle] nor [Paused]) and [intervalId] holds a
    handle that is live in the window; [start] sets both, and [pause] (when
    it acts) and [stop] clear both and leave no live handle. *)
Theorem target_iff_ticking t w :
  reachable t w →
  (is_Some (targetTime t) ↔
   (state t ≠ Idle ∧ state t ≠ Paused) ∧
   ∃ h, intervalId t = Some h ∧ h ∈ live w) ∧
  (∀ cfg now m, is_mode m →
     let o := start cfg now m t w in
     is_Some (targetTime (timer_of o)) ∧
     ∃ h, intervalId (timer_of o) = Some h ∧ live (window_of o) = {[ h ]}) ∧
  (is_mode (state t) →
     let o := pause t w in
     targetTime (timer_of o) = None ∧ intervalId (timer_of o) = None ∧
     live (window_of o) = ∅) ∧
  (let o := stop t w in
   targetTime (timer_of o) = None ∧ intervalId (timer_of o) = None ∧
   live (window_of o) = ∅).
Proof.
  intros Hr. apply reachable_inv in Hr as [Ht Hi Hl Hp Hz].
  split; [|split; [|split]].
  - rewrite Ht, <- is_mode_not_control. split.
    + intros Hm. split; [done|]. apply Hi in Hm as [h Hh].
      exists h. split; [done|]. rewrite Hl, Hh. set_solver.
    + tauto.
  - intros cfg now m Hm. rewrite start_mode by done. simpl.
    split; [eauto|]. eexists. split; [done|]. rewrite Hl. set_solver.
  - intros Hm. destruct (proj2 Hi Hm) as [h Hh].
    rewrite (pause_mode _ _ h) by done. simpl.
    rewrite Hl, Hh. simpl. repeat split. set_solver.
  - rewrite stop_spec. simpl. repeat split. rewrite Hl. set_solver.
Qed.

Lemma target_iff_ticking_witness :
  let o := start DEFAULT_SETTINGS 5000 Work new_PomoTimer new_Window in
  is_Some (targetTime (timer_of o)) ↔
  (state (timer_of o) ≠ Idle ∧ state (timer_of o) ≠ Paused) ∧
  ∃ h, intervalId (timer_of o) = Some h ∧ h ∈ live (window_of o).
Proof.
  apply (target_iff_ticking
           (timer_of (run_call (call_start DEFAULT_SETTINGS 5000 Work)
                               new_PomoTimer new_Window))
           (window_of (run_call (call_start DEFAULT_SETTINGS 5000 Work)
                                new_PomoTimer new_Window))).
  apply reachable_call, reachable_new.
Defined.

(** C10: in every reachable state with [state = Paused] the recorded
    [prePauseState] is a session kind, so [resume] is [start] of that kind
    (never of [Idle] or [Paused]).  [pause] does nothing unless the state is
    a session kind; pausing a ticking session records its kind, and resuming
    it leaves the engine in the kind that was suspended. *)
Theorem paused_remembers_mode t w :
  reachable t w →
  (state t = Paused →
   is_mode (prePauseState t) ∧
   ∀ cfg now,
     resume cfg now t w = start cfg now (prePauseState t) t w ∧
     state (timer_of (resume cfg now t w)) = prePauseState t) ∧
  (¬ is_mode (state t) → pause t w = (t, w, [])) ∧
  (is_mode (state t) →
   let p := pause t w in
   state (timer_of p) = Paused ∧
   prePauseState (timer_of p) = state t ∧
   ∀ cfg now,
     state (timer_of (resume cfg now (timer_of p) (window_of p))) = state t).
Proof.
  intros Hr. apply reachable_inv in Hr as [Ht Hi Hl Hp Hz].
  split; [|split].
  - intros Hs. pose proof (Hp Hs) as Hm. split; [done|].
    intros cfg now. unfold resume. rewrite bool_decide_eq_true_2 by done.
    split; [done|]. rewrite start_mode by done. reflexivity.
  - apply pause_control.
  - intros Hm. destruct (proj2 Hi Hm) as [h Hh].
    rewrite (pause_mode _ _ h) by done. simpl. repeat split.
    intros cfg now. unfold resume. simpl.
    rewrite start_mode by done. reflexivity.
Qed.

Lemma paused_remembers_mode_witness :
  let o := run_calls [call_start DEFAULT_SETTINGS 5000 LongBreak; call_pause]
             new_PomoTimer new_Window in
  state (timer_of o) = Paused ∧ is_mode (prePauseState (timer_of o)).
Proof.
  split; [reflexivity|].
  apply (paused_remembers_mode
           (timer_of (run_call call_pause
              (timer_of (run_call (call_start DEFAULT_SETTINGS 5000 LongBreak)
                                  new_PomoTimer new_Window))
              (window_of (run_call (call_start DEFAULT_SETTINGS 5000 LongBreak)
                                   new_PomoTimer new_Window))))
           (window_of (run_call call_pause
              (timer_of (run_call (call_start DEFAULT_SETTINGS 5000 LongBreak)
                                  new_PomoTimer new_Window))
              (window_of (run_call (call_start DEFAULT_SETTINGS 5000 LongBreak)
                                   new_PomoTimer new_Window))))).
  - do 2 apply reachable_call. apply reachable_new.
  - reflexivity.
Defined.

(** C9: [reset] is [stop] followed by one more zero tick, and it is
    idempotent: a second [reset] returns the same engine, the same window and
    makes the same calls as the first, and after each the engine is [Idle]
    with [remainingTime = totalTime = 0], no [targetTime], no [intervalId]
    and no live handle. *)
Theorem reset_idempotent t w :
  reachable t w →
  let o1 := reset t w in
  let o2 := reset (timer_of o1) (window_of o1) in
  o1 = (timer_of (stop t w), window_of (stop t w),
        calls_of (stop t w) ++ [onTick 0 0]) ∧
  o2 = o1 ∧
  state (timer_of o1) = Idle ∧
  remainingTime (timer_of o1) = 0 ∧
  totalTime (timer_of o1) = 0 ∧
  targetTime (timer_of o1) = None ∧
  intervalId (timer_of o1) = None ∧
  live (window_of o1) = ∅.
Proof.
  intros Hr. apply reachable_inv in Hr as [Ht Hi Hl Hp Hz].
  assert (live w ∖ handles (intervalId t) = ∅) as Hempty
    by (rewrite Hl; set_solver).
  assert ((∅ : gset positive) ∖ ∅ = ∅) as Hempty' by set_solver.
  unfold reset, timer_of, window_of, calls_of. rewrite !stop_spec. simpl.
  rewrite Hempty, Hempty'. repeat split.
Qed.

Lemma reset_idempotent_witness :
  let o0 := start DEFAULT_SETTINGS 5000 Work new_PomoTimer new_Window in
  let o1 := reset (timer_of o0) (window_of o0) in
  let o2 := reset (timer_of o1) (window_of o1) in
  o2 = o1 ∧ state (timer_of o1) = Idle ∧ live (window_of o1) = ∅.
Proof.
  pose proof (reset_idempotent
    (timer_of (run_call (call_start DEFAULT_SETTINGS 5000 Work)
                        new_PomoTimer new_Window))
    (window_of (run_call (call_start DEFAULT_SETTINGS 5000 Work)
                         new_PomoTimer new_Window))
    (reachable_call _ _ _ reachable_new)) as H.
  simpl in H. simpl. tauto.
Defined.

Lemma interval_callback_done now t w target :
  targetTime t = Some target → target ≠ 0 →
  ceil_div (target - now) 1000 ≤ 0 →
  interval_callback now t w =
  ({| state := Idle; prePauseState := prePauseState t; remainingTime := 0;
      totalTime := 0; targetTime := None; intervalId := None |},
   {| live := live w ∖ handles (intervalId t); nextHandle := nextHandle w |},
   [onTick (ceil_div (target - now) 1000) (totalTime t); onTick 0 0;
    onTimerComplete; onStateChange (state t)]).
Proof.
  intros Htg Hnz Hle. unfold interval_callback. rewrite Htg.
  rewrite bool_decide_eq_false_2 by done. simpl.
  rewrite bool_decide_eq_true_2 by done. rewrite stop_spec. reflexivity.
Qed.

Lemma interval_callback_going now t w target :
  targetTime t = Some target → target ≠ 0 →
  0 < ceil_div (target - now) 1000 →
  interval_callback now t w =
  (set_remainingTime (ceil_div (target - now) 1000) t, w,
   [onTick (ceil_div (target - now) 1000) (totalTime t)]).
Proof.
  intros Htg Hnz Hlt. unfold interval_callback. rewrite Htg.
  rewrite bool_decide_eq_false_2 by done. simpl.
  rewrite bool_decide_eq_false_2 by lia. reflexivity.
Qed.

Lemma fire_live h now t w :
  h ∈ live w → fire h now t w = interval_callback now t w.
Proof. intros Hh. unfold fire. by rewrite bool_decide_eq_true_2. Qed.

Lemma fire_dead h now t w :
  h ∉ live w → fire h now t w = (t, w, []).
Proof. intros Hh. unfold fire. by rewrite bool_decide_eq_false_2. Qed.

(** Only a tick that reaches zero notifies completion. *)
Lemma completions_only_at_zero c t w :
  completions (calls_of (run_call c t w)) =
  match c with
  | call_fire h now =>
    match targetTime t with
    | Some target =>
      if bool_decide (h ∈ live w ∧ target ≠ 0 ∧
                      ceil_div (target - now) 1000 ≤ 0)
      then 1%nat else 0%nat
    | None => 0%nat
    end
  | _ => 0%nat
  end.
Proof.
  destruct c as [cfg now s| |cfg now| | |h now]; simpl.
  - destruct (is_mode_cases s) as [Hm|Hc].
    + rewrite start_mode by done. reflexivity.
    + rewrite start_control by tauto. reflexivity.
  - unfold pause. destruct (intervalId t); [|done].
    destruct (_ && _); reflexivity.
  - unfold resume. destruct (bool_decide _); [|done].
    destruct (is_mode_cases (prePauseState t)) as [Hm|Hc].
    + rewrite start_mode by done. reflexivity.
    + rewrite start_control by tauto. reflexivity.
  - rewrite stop_spec. reflexivity.
  - unfold reset. rewrite stop_spec. reflexivity.
  - unfold fire. destruct (bool_decide_reflect (h ∈ live w)) as [Hh|Hh].
    + destruct (targetTime t) as [target|] eqn:Htg;
        [|unfold interval_callback; rewrite Htg; reflexivity].
      destruct (decide (target = 0)) as [->|Hnz].
      { unfold interval_callback. rewrite Htg. simpl.
        rewrite bool_decide_eq_false_2 by tauto. reflexivity. }
      destruct (decide (ceil_div (target - now) 1000 ≤ 0)) as [Hle|Hgt].
      * rewrite (interval_callback_done _ _ _ target) by done.
        rewrite bool_decide_eq_true_2 by done. reflexivity.
      * rewrite (interval_callback_going _ _ _ target) by (done || lia).
        rewrite bool_decide_eq_false_2 by tauto. reflexivity.
    + destruct (targetTime t); [|done].
      rewrite bool_decide_eq_false_2 by tauto. reflexivity.
Qed.

(** C3: when the tick of a live countdown reaches zero (the computed
    remaining time is [≤ 0]), the engine calls, in this order, the tick, the
    zero tick of [stop()], [onTimerComplete] once and [onStateChange] once
    with the state held before [stop()], which is a session kind and not
    [Idle]; by then the engine is [Idle] with [remainingTime = 0] and the
    handle is cancelled, so no later firing of any handle calls anything. *)
Theorem completion_notified_once t w h now target :
  reachable t w →
  h ∈ live w →
  targetTime t = Some target →
  target ≠ 0 →
  ceil_div (target - now) 1000 ≤ 0 →
  let o := fire h now t w in
  calls_of o =
    [onTick (ceil_div (target - now) 1000) (totalTime t); onTick 0 0;
     onTimerComplete; onStateChange (state t)] ∧
  is_mode (state t) ∧
  state t ≠ Idle ∧
  completions (calls_of o) = 1%nat ∧
  state_changes (calls_of o) = [state t] ∧
  state (timer_of o) = Idle ∧
  remainingTime (timer_of o) = 0 ∧
  intervalId (timer_of o) = None ∧
  live (window_of o) = ∅ ∧
  ∀ h' now', fire h' now' (timer_of o) (window_of o) =
             (timer_of o, window_of o, []).
Proof.
  intros Hr Hh Htg Hnz Hle. apply reachable_inv in Hr as [Ht Hi Hl Hp Hz].
  assert (is_mode (state t)) as Hm by (apply Ht; rewrite Htg; eauto).
  assert (live w ∖ handles (intervalId t) = ∅) as Hempty
    by (rewrite Hl; set_solver).
  simpl. rewrite fire_live by done.
  rewrite (interval_callback_done _ _ _ target) by done.
  unfold timer_of, window_of, calls_of. simpl. rewrite Hempty.
  repeat split; try done.
  apply is_mode_not_control in Hm. tauto.
Qed.

Lemma completion_notified_once_witness :
  let o0 := start DEFAULT_SETTINGS 1000 Work new_PomoTimer new_Window in
  let o := fire 1%positive 1501000 (timer_of o0) (window_of o0) in
  calls_of o = [onTick 0 1500; onTick 0 0; onTimerComplete; onStateChange Work].
Proof.
  apply (completion_notified_once
    (timer_of (run_call (call_start DEFAULT_SETTINGS 1000 Work)
                        new_PomoTimer new_Window))
    (window_of (run_call (call_start DEFAULT_SETTINGS 1000 Work)
                         new_PomoTimer new_Window))
    1%positive 1501000 1501000).
  - apply reachable_call, reachable_new.
  - simpl. set_solver.
  - reflexivity.
  - lia.
  - vm_compute. discriminate.
Defined.

(** Apart from a late tick, no call reports a negative number: with
    non-negative durations configured and non-negative times held, every
    method and every tick that fires less than a second after [targetTime]
    passes non-negative numbers to [onTick] and leaves non-negative times. *)
Lemma onTick_nonneg_unless_late c t w :
  nonneg_times t →
  match c with
  | call_start cfg _ _ | call_resume cfg _ => nonneg_settings cfg
  | call_fire _ now =>
    ∀ target, targetTime t = Some target → now < target + 1000
  | _ => True
  end →
  nonneg_ticks (calls_of (run_call c t w)) ∧
  nonneg_times (timer_of (run_call c t w)).
Proof.
  intros [Hrem Htot] Hc.
  assert (∀ cfg s, nonneg_settings cfg → 0 ≤ fresh_seconds cfg s) as Hfresh.
  { intros cfg s (H1 & H2 & H3). destruct s; simpl; lia. }
  assert (∀ cfg now s, nonneg_settings cfg →
            nonneg_ticks (calls_of (start cfg now s t w)) ∧
            nonneg_times (timer_of (start cfg now s t w))) as Hstart.
  { intros cfg now s Hcfg. specialize (Hfresh cfg s Hcfg).
    destruct (is_mode_cases s) as [Hm|Hm].
    - rewrite start_mode by done. unfold nonneg_ticks, nonneg_times. simpl.
      destruct (bool_decide (remainingTime t ≤ 0));
        (split; [repeat constructor|split]); done.
    - rewrite start_control by tauto.
      split; [constructor | by split]. }
  unfold nonneg_ticks, nonneg_times in *.
  destruct c as [cfg now s| |cfg now| | |h now]; simpl.
  - by apply Hstart.
  - unfold pause. destruct (intervalId t); [|by split; [constructor|]].
    destruct (_ && _); simpl; [|by split; [constructor|]].
    split; [repeat constructor|split]; done.
  - unfold resume. destruct (bool_decide _); [by apply Hstart|].
    by split; [constructor|].
  - rewrite stop_spec. simpl. split; [repeat constructor|split]; done.
  - unfold reset. rewrite stop_spec. simpl.
    split; [repeat constructor|split]; done.
  - unfold fire. destruct (bool_decide _); [|by split; [constructor|]].
    unfold interval_callback.
    destruct (targetTime t) as [target|] eqn:Htg; [|by split; [constructor|]].
    destruct (bool_decide (target = 0)); [by split; [constructor|]|].
    specialize (Hc target eq_refl).
    assert (0 ≤ ceil_div (target - now) 1000) as Hd.
    { pose proof (proj1 (ceil_div_spec (target - now) _) eq_refl). lia. }
    simpl. destruct (bool_decide (ceil_div (target - now) 1000 ≤ 0)).
    + rewrite stop_spec. simpl. split; [repeat constructor|split]; done.
    + simpl. split; [repeat constructor|split]; done.
Qed.

(** C4 fails on a late tick: the handler passes the computed difference to
    [onTick] before clamping it, so a tick that fires a second or more after
    [targetTime] reports a negative [remainingSeconds].  Here a 25-minute
    work session started at 1000 ms has [targetTime = 1501000]; its tick at
    1502500 ms calls [onTick(-1, 1500)]. *)
Theorem late_tick_reports_negative :
  calls_of (run_calls [call_start DEFAULT_SETTINGS 1000 Work;
                       call_fire 1%positive 1502500]
                      new_PomoTimer new_Window) =
  [onTick 1500 1500; onTick (-1) 1500; onTick 0 0;
   onTimerComplete; onStateChange Work] ∧
  ¬ nonneg_ticks
      (calls_of (run_calls [call_start DEFAULT_SETTINGS 1000 Work;
                            call_fire 1%positive 1502500]
                           new_PomoTimer new_Window)).
Proof.
  assert (calls_of (run_calls [call_start DEFAULT_SETTINGS 1000 Work;
                              call_fire 1%positive 1502500]
                             new_PomoTimer new_Window) =
          [onTick 1500 1500; onTick (-1) 1500; onTick 0 0;
           onTimerComplete; onStateChange Work]) as Hrun by reflexivity.
  split; [exact Hrun|]. rewrite Hrun.
  intros H. apply Forall_cons in H as [_ H]. apply Forall_cons in H as [H _].
  lia.
Qed.

(** ** Pausing and resuming *)

(** Ticks that fire before the deadline only refresh [remainingTime]: after
    them it holds the value computed by the last one. *)
Lemma ticks_before_target h ts t w target :
  targetTime t = Some target → target ≠ 0 → h ∈ live w →
  Forall (λ x, x < target) ts →
  run_calls (call_fire h <$> ts) t w =
  (match last ts with
   | Some x => set_remainingTime (ceil_div (target - x) 1000) t
   | None => t
   end, w,
   (λ x, onTick (ceil_div (target - x) 1000) (totalTime t)) <$> ts).
Proof.
  intros Htg Hnz Hh Hts. revert t Htg.
  induction Hts as [|x ts Hx Hts IH]; intros t Htg; [done|].
  cbn [fmap list_fmap run_calls run_call].
  rewrite fire_live by done.
  rewrite (interval_callback_going _ _ _ target)
    by (try apply ceil_div_pos; done || lia).
  rewrite IH by done. simpl. f_equal. f_equal.
  destruct ts as [|y ts]; [done|].
  rewrite last_cons_cons.
  destruct (last (y :: ts)) eqn:Hlast; [reflexivity|].
  by apply last_None in Hlast.
Qed.

Lemma resumed_spec cfg t w t0 m ticks tr Δ :
  engine_inv t w → is_mode m → 0 ≤ t0 →
  let r := remainingTime (timer_of (started cfg t w t0 m)) in
  0 ≤ Δ < r →
  Forall (λ x, t0 ≤ x ≤ t0 + 1000 * Δ) ticks →
  let v := ceil_div (t0 + 1000 * r - last_update t0 ticks) 1000 in
  0 < v ∧
  resumed cfg t w t0 m ticks tr =
  ({| state := m; prePauseState := m; remainingTime := v;
      totalTime := totalTime (timer_of (started cfg t w t0 m));
      targetTime := Some (tr + v * 1000);
      intervalId := Some (Pos.succ (nextHandle w)) |},
   {| live := {[ Pos.succ (nextHandle w) ]};
      nextHandle := Pos.succ (Pos.succ (nextHandle w)) |},
   [onTick v (totalTime (timer_of (started cfg t w t0 m)))]).
Proof.
  intros Hinv Hm Ht0. unfold resumed, paused, ticked, started, last_update.
  rewrite start_mode by done. cbn zeta.
  set (r := if bool_decide (remainingTime t ≤ 0) then _ else _).
  set (tot := if bool_decide (remainingTime t ≤ 0) then _ else totalTime t).
  unfold timer_of, window_of. cbn [fst snd remainingTime totalTime].
  intros HΔ Hts.
  assert (live w ∖ handles (intervalId t) = ∅) as Hempty.
  { destruct Hinv as [_ _ Hl _ _]. rewrite Hl. set_solver. }
  rewrite Hempty.
  rewrite (ticks_before_target _ _ _ _ (t0 + r * 1000)); cycle 1.
  { reflexivity. } { lia. } { simpl. set_solver. }
  { eapply Forall_impl; [exact Hts|]. simpl. lia. }
  cbn [fst snd].
  assert (0 < ceil_div (t0 + 1000 * r - default t0 (last ticks)) 1000) as Hv.
  { apply ceil_div_pos. destruct (last ticks) as [x|] eqn:Hlast; simpl.
    - apply last_Some_elem_of in Hlast.
      rewrite Forall_forall in Hts. apply Hts in Hlast. lia.
    - lia. }
  split; [exact Hv|].
  assert (({[nextHandle w]} ∪ ∅) ∖ {[nextHandle w]} = (∅ : gset positive))
    as Hclear by set_solver.
  assert ({[Pos.succ (nextHandle w)]} ∪ (∅ : gset positive) ∖ ∅ =
          {[Pos.succ (nextHandle w)]}) as Hset by set_solver.
  destruct (last ticks) as [x|] eqn:Hlast; simpl in Hv |- *.
  - erewrite pause_mode; [|simpl; done|simpl; done].
    unfold resume. simpl. rewrite start_mode by done. simpl.
    replace (t0 + r * 1000 - x) with (t0 + 1000 * r - x) by lia.
    rewrite bool_decide_eq_false_2 by lia.
    unfold clearInterval. simpl. rewrite Hclear, Hset. reflexivity.
  - replace (t0 + 1000 * r - t0) with (1000 * r) in * by lia.
    rewrite ceil_div_exact in *.
    erewrite pause_mode; [|simpl; done|simpl; done].
    unfold resume. simpl. rewrite start_mode by done. simpl.
    rewrite bool_decide_eq_false_2 by lia.
    unfold clearInterval. simpl. rewrite Hclear, Hset. reflexivity.
Qed.

(** C2: the claim asks that a session paused [Δ] seconds after its start
    and resumed later reports [r - Δ] within one second.  The ticks compute
    [remainingTime] from [targetTime] and the clock, so that held-up ticks
    do not make the countdown drift, but [pause()] does not read the clock:
    it keeps the value of the last tick.  A 25-minute session starts at
    5000 ms and ticks once at 6000 ms (1499 s left); the next ticks are held
    up and [pause()] runs at 9000 ms, 4 s after the start.  The resume
    reports 1499 and counts down from there: the 3 s that ran between the
    last tick and the pause are added back, where the claim asks for 1496
    within one second. *)
Lemma resume_after_stalled_ticks :
  0 ≤ 4 < remainingTime
            (timer_of (started DEFAULT_SETTINGS new_PomoTimer new_Window
                               5000 Work)) ∧
  Forall (λ x, 5000 ≤ x ≤ 5000 + 1000 * 4) [6000] ∧
  calls_of (resumed DEFAULT_SETTINGS new_PomoTimer new_Window
                    5000 Work [6000] 20000) = [onTick 1499 1500] ∧
  ¬ resume_reports_elapsed DEFAULT_SETTINGS new_PomoTimer new_Window
      5000 Work [6000] 20000 4.
Proof.
  split; [vm_compute; split; [discriminate | reflexivity]|].
  split; [repeat constructor; lia|].
  split; [reflexivity|].
  intros (v & tot & Hcalls & _ & Hlo & Hhi).
  assert (calls_of (resumed DEFAULT_SETTINGS new_PomoTimer new_Window
                            5000 Work [6000] 20000) = [onTick 1499 1500])
    as Hrun by reflexivity.
  rewrite Hrun in Hcalls. injection Hcalls as <- <-.
  vm_compute in Hhi. apply Hhi. reflexivity.
Qed.

(** With ticks on time the pause is exact within a second.  A session runs
    from [remainingTime = r] (started at [t0]), is paused [Δ] whole seconds
    later, [Δ < r], and resumed at any later time [tr]; the last tick (or
    the start) came less than one second before the pause.  The tick of the
    resume then reports the value [v] of that last tick, [start] sets
    [targetTime] to [tr] plus [v] seconds, so the time spent paused is not
    counted, and [r - Δ ≤ v ≤ r - Δ + 1] with [v] positive. *)
Theorem resume_reports_last_tick cfg t w t0 m ticks tr Δ :
  reachable t w →
  is_mode m →
  0 ≤ t0 →
  0 ≤ Δ < remainingTime (timer_of (started cfg t w t0 m)) →
  Forall (λ x, t0 ≤ x ≤ t0 + 1000 * Δ) ticks →
  t0 + 1000 * Δ - 1000 < last_update t0 ticks →
  let r := remainingTime (timer_of (started cfg t w t0 m)) in
  let o := resumed cfg t w t0 m ticks tr in
  ∃ v,
    calls_of o = [onTick v (totalTime (timer_of (started cfg t w t0 m)))] ∧
    v = ceil_div (t0 + 1000 * r - last_update t0 ticks) 1000 ∧
    remainingTime (timer_of o) = v ∧
    targetTime (timer_of o) = Some (tr + v * 1000) ∧
    state (timer_of o) = m ∧
    r - Δ ≤ v ≤ r - Δ + 1 ∧
    0 < v.
Proof.
  intros Hr Hm Ht0 HΔ Hts Hlast r o. subst r o.
  destruct (resumed_spec cfg t w t0 m ticks tr Δ
              (reachable_inv _ _ Hr) Hm Ht0 HΔ Hts) as [Hv Heq].
  rewrite Heq. clear Heq.
  set (r := remainingTime (timer_of (started cfg t w t0 m))) in *.
  set (v := ceil_div (t0 + 1000 * r - last_update t0 ticks) 1000) in *.
  assert (1000 * (v - 1) < t0 + 1000 * r - last_update t0 ticks ≤ 1000 * v)
    as Hc by (apply ceil_div_spec; reflexivity).
  assert (last_update t0 ticks ≤ t0 + 1000 * Δ) as Hle.
  { unfold last_update. destruct (last ticks) as [x|] eqn:E; simpl; [|lia].
    apply last_Some_elem_of in E. rewrite Forall_forall in Hts.
    apply Hts in E. lia. }
  exists v. unfold timer_of, calls_of. simpl. repeat split; try done; lia.
Qed.

Lemma resume_reports_last_tick_witness :
  ∃ v,
    calls_of (resumed DEFAULT_SETTINGS new_PomoTimer new_Window
                      5000 Work [6004; 7009; 8003] 20000) = [onTick v 1500] ∧
    1500 - 4 ≤ v ≤ 1500 - 4 + 1.
Proof.
  destruct (resume_reports_last_tick DEFAULT_SETTINGS new_PomoTimer new_Window
              5000 Work [6004; 7009; 8003] 20000 4)
    as (v & Hcalls & _ & _ & _ & _ & Hv & _).
  - apply reachable_new.
  - left; reflexivity.
  - lia.
  - vm_compute. split; [discriminate | reflexivity].
  - repeat constructor; lia.
  - vm_compute. reflexivity.
  - exists v. split; [exact Hcalls | exact Hv].
Defined.

Example cycle_from_work :
  currentMode (handleCycleModeClick (new_PomodoroPlugin DEFAULT_SETTINGS))
  = ShortBreak.
Proof. reflexivity. Qed.

(** ** Facts on the plugin *)

Lemma focus_completions_show e p :
  focus_completions (show e p) =
  focus_completions p +
  (if bool_decide (e = Notice "Focus session completed!") then 1 else 0).
Proof.
  unfold focus_completions, show. simpl. rewrite filter_app, length_app.
  rewrite Nat2Z.inj_add. f_equal.
  destruct (bool_decide_reflect (e = Notice "Focus session completed!")).
  - rewrite filter_cons_True by done. reflexivity.
  - rewrite filter_cons_False by done. reflexivity.
Qed.

Lemma advanceToNextMode_spec now p :
  advanceToNextMode now p =
  {| settings := settings p; timer := timer p; window := window p;
     currentMode := currentMode p;
     completedPomodoros :=
       if bool_decide (currentMode p = Work) then completedPomodoros p + 1
       else completedPomodoros p;
     nextMode :=
       if bool_decide (currentMode p = Work) then
         if rem_is_zero (completedPomodoros p + 1)
                        (longBreakInterval (settings p))
         then LongBreak else ShortBreak
       else Work;
     isSessionComplete := isSessionComplete p;
     isPanelPinned := isPanelPinned p;
     timeouts :=
       timeouts p ++
       (if (bool_decide (currentMode p = Work) && autoStartBreaks (settings p))
           || (bool_decide (currentMode p ≠ Work)
               && autoStartPomodoros (settings p))
        then [(now + 1000, AutoStart)] else []);
     shown := shown p |}.
Proof.
  destruct p as [cfg tm wd cm n nx sc pin tos sh].
  unfold advanceToNextMode. cbn [currentMode].
  destruct (bool_decide_reflect (cm = Work)) as [Hw|Hw].
  - rewrite (bool_decide_eq_false_2 (cm ≠ Work)) by tauto.
    destruct (rem_is_zero _ _); cbn;
      rewrite (bool_decide_eq_true_2 _ Hw);
      rewrite (bool_decide_eq_false_2 (cm ≠ Work)) by tauto;
      destruct (autoStartBreaks cfg); cbn; rewrite ?app_nil_r; reflexivity.
  - rewrite (bool_decide_eq_true_2 (cm ≠ Work)) by done. cbn.
    rewrite (bool_decide_eq_false_2 _ Hw), (bool_decide_eq_true_2 _ Hw).
    destruct (autoStartPomodoros cfg); cbn; rewrite ?app_nil_r; reflexivity.
Qed.

(** The first half of [onTimerComplete]: the flag, the sound, the desktop
    notification and the notice. *)
Lemma plugin_onTimerComplete_announce now p :
  plugin_onTimerComplete now p =
  setTimeout AcknowledgeLater 10000 now
    (advanceToNextMode now
       {| settings := settings p; timer := timer p; window := window p;
          currentMode := currentMode p;
          completedPomodoros := completedPomodoros p;
          nextMode := nextMode p;
          isSessionComplete := true;
          isPanelPinned := isPanelPinned p;
          timeouts := timeouts p;
          shown :=
            shown p ++
            (if playSound (settings p) then [NotificationSound] else []) ++
            (if showDesktopNotification (settings p)
             then [DesktopNotification
                     ("Minidoro - " +:+ getModeText p +:+ " complete")]
             else []) ++
            [Notice (getModeText p +:+ " session completed!")] |}).
Proof.
  destruct p as [cfg tm wd cm n nx sc pin tos sh].
  destruct cfg as [wt sbt lbt lbi asb asp sdn ps sisb].
  unfold plugin_onTimerComplete, show, set_isSessionComplete, getModeText.
  destruct ps, sdn;
    cbn [settings playSound showDesktopNotification timer window currentMode
         completedPomodoros nextMode isSessionComplete isPanelPinned timeouts
         shown app];
    rewrite <- ?app_assoc; reflexivity.
Qed.

Lemma plugin_onTimerComplete_spec now p :
  plugin_onTimerComplete now p =
  {| settings := settings p; timer := timer p; window := window p;
     currentMode := currentMode p;
     completedPomodoros :=
       if bool_decide (currentMode p = Work) then completedPomodoros p + 1
       else completedPomodoros p;
     nextMode :=
       if bool_decide (currentMode p = Work) then
         if rem_is_zero (completedPomodoros p + 1)
                        (longBreakInterval (settings p))
         then LongBreak else ShortBreak
       else Work;
     isSessionComplete := true;
     isPanelPinned := isPanelPinned p;
     timeouts :=
       timeouts p ++
       (if (bool_decide (currentMode p = Work) && autoStartBreaks (settings p))
           || (bool_decide (currentMode p ≠ Work)
               && autoStartPomodoros (settings p))
        then [(now + 1000, AutoStart)] else []) ++
       [(now + 10000, AcknowledgeLater)];
     shown :=
       shown p ++
       (if playSound (settings p) then [NotificationSound] else []) ++
       (if showDesktopNotification (settings p)
        then [DesktopNotification
                ("Minidoro - " +:+ getModeText p +:+ " complete")]
        else []) ++
       [Notice (getModeText p +:+ " session completed!")] |}.
Proof.
  rewrite plugin_onTimerComplete_announce, advanceToNextMode_spec.
  unfold setTimeout, set_timeouts.
  cbn [settings timer window currentMode completedPomodoros nextMode
       isSessionComplete isPanelPinned timeouts shown].
  rewrite <- app_assoc. reflexivity.
Qed.

Lemma completion_notice_focus p :
  bool_decide (Notice (getModeText p +:+ " session completed!") =
               Notice "Focus session completed!") =
  bool_decide (currentMode p = Work).
Proof.
  unfold getModeText. destruct (currentMode p); reflexivity.
Qed.

Lemma plugin_onTimerComplete_focus now p :
  focus_completions (plugin_onTimerComplete now p) =
  focus_completions p + (if bool_decide (currentMode p = Work) then 1 else 0).
Proof.
  rewrite plugin_onTimerComplete_spec. unfold focus_completions. simpl.
  rewrite !filter_app, !length_app, !Nat2Z.inj_add.
  assert (∀ b : bool,
    filter (λ e, e = Notice "Focus session completed!")
           (if b then [NotificationSound] else []) = []) as ->
    by (intros []; reflexivity).
  assert (∀ (b : bool) s,
    filter (λ e, e = Notice "Focus session completed!")
           (if b then [DesktopNotification s] else []) = []) as ->
    by (intros [] ?; reflexivity).
  simpl. f_equal.
  pose proof (completion_notice_focus p) as H.
  destruct (bool_decide_reflect (currentMode p = Work)).
  - apply bool_decide_eq_true in H. rewrite filter_cons_True by done. done.
  - apply bool_decide_eq_false in H. rewrite filter_cons_False by done. done.
Qed.

Lemma counts_focus_ext p q :
  completedPomodoros q = completedPomodoros p → shown q = shown p →
  counts_focus p → counts_focus q.
Proof.
  unfold counts_focus, focus_completions. intros -> ->. done.
Qed.

Lemma counts_focus_complete now p :
  counts_focus p → counts_focus (plugin_onTimerComplete now p).
Proof.
  unfold counts_focus. intros H. rewrite plugin_onTimerComplete_focus, <- H.
  rewrite plugin_onTimerComplete_spec. simpl.
  destruct (bool_decide (currentMode p = Work)); lia.
Qed.

Lemma counts_focus_callbacks now cs p :
  counts_focus p → counts_focus (foldl (handle_callback now) p cs).
Proof.
  revert p. induction cs as [|c cs IH]; intros p Hp; [done|].
  simpl. apply IH. destruct c; simpl; auto using counts_focus_complete.
Qed.

Lemma counts_focus_on_timer now f p :
  counts_focus p → counts_focus (on_timer now f p).
Proof.
  intros Hp. unfold on_timer. apply counts_focus_callbacks.
  by apply (counts_focus_ext p).
Qed.

Lemma counts_focus_acknowledge p :
  counts_focus p → counts_focus (acknowledgeSessionComplete p).
Proof.
  intros Hp. unfold acknowledgeSessionComplete. simpl.
  destruct (negb _); by apply (counts_focus_ext p).
Qed.

Lemma counts_focus_show_other e p :
  e ≠ Notice "Focus session completed!" →
  counts_focus p → counts_focus (show e p).
Proof.
  unfold counts_focus. intros He Hp. rewrite focus_completions_show.
  rewrite bool_decide_eq_false_2 by done. simpl. lia.
Qed.

Lemma counts_focus_step p e :
  counts_focus p → counts_focus (plugin_step p e).
Proof.
  intros Hp. destruct e as [now| | | |cfg|h now|i now]; simpl.
  - unfold handlePauseResumeClick.
    destruct (isSessionComplete p); [by apply counts_focus_acknowledge|].
    destruct (_ || _); [destruct (bool_decide _)|];
      by apply counts_focus_on_timer.
  - unfold handleResetClick.
    apply (counts_focus_ext (on_timer 0 reset p)); [done..|].
    by apply counts_focus_on_timer.
  - unfold handleCycleModeClick. destruct (_ || _).
    { by apply counts_focus_show_other. }
    destruct (isSessionComplete p); [by apply counts_focus_acknowledge|].
    apply counts_focus_show_other.
    + unfold getModeText.
      destruct (currentMode p); simpl; discriminate.
    + destruct (currentMode p); by apply (counts_focus_ext p).
  - unfold pieButton_onclick.
    destruct (isSessionComplete p); [by apply counts_focus_acknowledge|].
    by apply (counts_focus_ext p).
  - by apply (counts_focus_ext p).
  - by apply counts_focus_on_timer.
  - unfold fire_timeout. destruct (timeouts p !! i) as [[due k]|]; [|done].
    destruct (bool_decide (due ≤ now)); [|done].
    assert (counts_focus (set_timeouts (delete i (timeouts p)) p)) as Hq
      by by apply (counts_focus_ext p).
    destruct k; simpl.
    + destruct (isSessionComplete p); [|done].
      apply counts_focus_on_timer. revert Hq. by apply counts_focus_ext.
    + by apply counts_focus_acknowledge.
Qed.

Lemma plugin_reachable_counts p : plugin_reachable p → counts_focus p.
Proof.
  induction 1 as [cfg|p e _ IH]; [reflexivity|].
  by apply counts_focus_step.
Qed.

Lemma callbacks_keep_engine now cs p :
  timer (foldl (handle_callback now) p cs) = timer p ∧
  window (foldl (handle_callback now) p cs) = window p.
Proof.
  revert p. induction cs as [|c cs IH]; intros p; [done|].
  simpl. destruct (IH (handle_callback now p c)) as [-> ->].
  destruct c; [done..|].
  unfold handle_callback. rewrite plugin_onTimerComplete_spec. done.
Qed.

Lemma on_timer_engine now f p :
  timer (on_timer now f p) = timer_of (f (timer p) (window p)) ∧
  window (on_timer now f p) = window_of (f (timer p) (window p)).
Proof.
  unfold on_timer. destruct (callbacks_keep_engine now
    (calls_of (f (timer p) (window p)))
    (set_engine (timer_of (f (timer p) (window p)))
                (window_of (f (timer p) (window p))) p)) as [-> ->].
  done.
Qed.

Lemma on_timer_call_reachable now c p :
  reachable (timer p) (window p) →
  reachable (timer (on_timer now (run_call c) p))
            (window (on_timer now (run_call c) p)).
Proof.
  intros Hr. destruct (on_timer_engine now (run_call c) p) as [-> ->].
  by apply reachable_call.
Qed.

Lemma acknowledge_engine p :
  timer (acknowledgeSessionComplete p) = timer p ∧
  window (acknowledgeSessionComplete p) = window p.
Proof.
  unfold acknowledgeSessionComplete. simpl. by destruct (negb _).
Qed.

(** The engine of the plugin is only ever driven through its methods. *)
Lemma plugin_reachable_engine p :
  plugin_reachable p → reachable (timer p) (window p).
Proof.
  induction 1 as [cfg|p e _ IH]; [apply reachable_new|].
  destruct e as [now| | | |cfg|h now|i now]; simpl.
  - unfold handlePauseResumeClick.
    destruct (isSessionComplete p).
    { by destruct (acknowledge_engine p) as [-> ->]. }
    destruct (_ || _); [destruct (bool_decide _)|].
    + by apply (on_timer_call_reachable now (call_resume (settings p) now)).
    + by apply (on_timer_call_reachable now call_pause).
    + by apply (on_timer_call_reachable now
                  (call_start (settings p) now (currentMode p))).
  - unfold handleResetClick. simpl.
    by apply (on_timer_call_reachable 0 call_reset).
  - unfold handleCycleModeClick. destruct (_ || _); [done|].
    destruct (isSessionComplete p).
    { by destruct (acknowledge_engine p) as [-> ->]. }
    by destruct (currentMode p).
  - unfold pieButton_onclick. destruct (isSessionComplete p); [|done].
    by destruct (acknowledge_engine p) as [-> ->].
  - done.
  - by apply (on_timer_call_reachable now (call_fire h now)).
  - unfold fire_timeout. destruct (timeouts p !! i) as [[due k]|]; [|done].
    destruct (bool_decide (due ≤ now)); [|done].
    destruct k; simpl.
    + destruct (isSessionComplete p); [|done].
      by apply (on_timer_call_reachable now
                  (call_start (settings p) now (nextMode p))
                  (set_currentMode (nextMode p)
                     (set_timeouts (delete i (timeouts p)) p))).
    + by destruct (acknowledge_engine
                     (set_timeouts (delete i (timeouts p)) p)) as [-> ->].
Qed.

(** C6: the claim asks that the completion of a Work session adds one to
    the count and selects a break.  [advanceToNextMode] takes [currentMode]
    for the mode that completed, and [currentMode] can part from the session
    the engine runs: the acknowledgement scheduled by a completion is not
    cancelled by an earlier acknowledgement, and when it fires while a later
    session is paused (the engine is then not running) it sets
    [currentMode] to the old [nextMode].  Below, a first Work session
    completes and is acknowledged by a click; the mode is cycled back to
    Work and a second Work session is started, paused and, after the first
    acknowledgement timer has fired, resumed.  It runs as [Work] in the
    engine while [currentMode] is [ShortBreak]; when it completes the engine
    reports [Work] as the completed state, yet the count stays at 1,
    [nextMode] is [Work] and the notice announces a short break. *)
Theorem stale_acknowledgement_during_pause :
  let p :=
    foldl plugin_step (new_PomodoroPlugin DEFAULT_SETTINGS)
      [PauseResumeClick 0; IntervalFires 1%positive 1500000;
       PauseResumeClick 1501000; CycleModeClick; CycleModeClick;
       PauseResumeClick 1504000; PauseResumeClick 1505000;
       TimeoutFires 0 1510000; PauseResumeClick 1520000] in
  let p' := plugin_step p (IntervalFires 3%positive 3020000) in
  state (timer p) = Work ∧ currentMode p = ShortBreak ∧
  completedPomodoros p = 1 ∧
  longBreakInterval (settings p) = 4 ∧
  calls_of (fire 3%positive 3020000 (timer p) (window p)) =
    [onTick 0 1500; onTick 0 0; onTimerComplete; onStateChange Work] ∧
  isSessionComplete p' = true ∧
  completedPomodoros p' = 1 ∧
  nextMode p' = Work ∧
  last (shown p') = Some (Notice "Short break session completed!").
Proof. vm_compute. repeat split. Qed.

(** ** The claims on the sequencer *)

(** X20: [onTimerComplete] runs on every session completion and takes
    [currentMode] as the mode that completed.  If it is [Work], the count of
    completed pomodoros grows by one and [nextMode] is [LongBreak] when the
    new count is a multiple of [longBreakInterval], [ShortBreak] otherwise;
    if it is a break, the count is unchanged and [nextMode] is [Work].  The
    count is the number of Work completions so far, so with an interval of 4
    the completion of the [n]-th Work session selects [LongBreak] exactly
    when [n] is a multiple of 4 (the 4th, 8th, 12th, ...). *)
Theorem next_mode_on_completion now p :
  plugin_reachable p →
  0 < longBreakInterval (settings p) →
  let p' := plugin_onTimerComplete now p in
  let n := focus_completions p + 1 in
  (currentMode p = Work →
     completedPomodoros p' = completedPomodoros p + 1 ∧
     focus_completions p' = n ∧
     completedPomodoros p' = n ∧
     (completedPomodoros p' `mod` longBreakInterval (settings p) = 0 →
      nextMode p' = LongBreak) ∧
     (completedPomodoros p' `mod` longBreakInterval (settings p) ≠ 0 →
      nextMode p' = ShortBreak) ∧
     (longBreakInterval (settings p) = 4 →
      (nextMode p' = LongBreak ↔ n `mod` 4 = 0) ∧
      (nextMode p' = ShortBreak ↔ n `mod` 4 ≠ 0))) ∧
  (currentMode p = ShortBreak ∨ currentMode p = LongBreak →
     completedPomodoros p' = completedPomodoros p ∧
     focus_completions p' = focus_completions p ∧
     nextMode p' = Work).
Proof.
  intros Hr Hpos p' n. apply plugin_reachable_counts in Hr.
  unfold counts_focus in Hr.
  assert (0 ≤ focus_completions p) as Hnn
    by (unfold focus_completions; lia).
  subst p' n. rewrite plugin_onTimerComplete_focus.
  rewrite plugin_onTimerComplete_spec. simpl. split.
  - intros Hw. rewrite !bool_decide_eq_true_2 by done.
    unfold rem_is_zero. rewrite bool_decide_eq_true_2 by lia. simpl.
    rewrite Z.rem_mod_nonneg by lia. rewrite Hr.
    destruct (bool_decide_reflect
                ((focus_completions p + 1) `mod`
                   longBreakInterval (settings p) = 0)) as [Hz|Hz].
    + split; [done|]. split; [done|]. split; [done|]. split; [done|].
      split; [done|]. intros H4. rewrite H4 in Hz. split; split; done.
    + split; [done|]. split; [done|]. split; [done|]. split; [done|].
      split; [done|]. intros H4. rewrite H4 in Hz. split; split; done.
  - intros Hb.
    assert (currentMode p ≠ Work) as Hnw by (destruct Hb as [-> | ->]; done).
    rewrite !bool_decide_eq_false_2 by done. repeat split; lia.
Qed.

Lemma next_mode_on_completion_witness :
  let p := new_PomodoroPlugin DEFAULT_SETTINGS in
  completedPomodoros (plugin_onTimerComplete 0 p) = 0 + 1 ∧
  nextMode (plugin_onTimerComplete 0 p) = ShortBreak.
Proof.
  destruct (next_mode_on_completion 0 (new_PomodoroPlugin DEFAULT_SETTINGS)
              (plugin_loaded DEFAULT_SETTINGS) ltac:(reflexivity))
    as [Hw _].
  destruct (Hw eq_refl) as (Hc & _ & _ & _ & Hs & _).
  split; [exact Hc | apply Hs; vm_compute; discriminate].
Defined.

Lemma acknowledge_idle p :
  state (timer p) = Idle →
  acknowledgeSessionComplete p =
  set_currentMode (nextMode p) (set_isSessionComplete false p).
Proof.
  intros Hs. unfold acknowledgeSessionComplete, isRunning. simpl.
  rewrite Hs. reflexivity.
Qed.

(** C7: a mode-switch request while the engine is not [Idle] (running or
    paused) only shows the notice asking to reset the timer, and
    [currentMode] stays as it was.  With the engine [Idle], a pending
    completion turns the request into its acknowledgement ([currentMode]
    becomes [nextMode], no cycle step is taken); otherwise [currentMode]
    moves one step along Work, ShortBreak, LongBreak, Work. *)
Theorem mode_switch_request p :
  (state (timer p) ≠ Idle →
     handleCycleModeClick p =
       show (Notice "Reset the timer to switch modes") p ∧
     currentMode (handleCycleModeClick p) = currentMode p) ∧
  (state (timer p) = Idle →
     isRunning (timer p) = false ∧
     (isSessionComplete p = true →
        handleCycleModeClick p = acknowledgeSessionComplete p ∧
        isSessionComplete (handleCycleModeClick p) = false ∧
        currentMode (handleCycleModeClick p) = nextMode p ∧
        shown (handleCycleModeClick p) = shown p) ∧
     (isSessionComplete p = false →
        timer (handleCycleModeClick p) = timer p ∧
        (currentMode p = Work →
           currentMode (handleCycleModeClick p) = ShortBreak) ∧
        (currentMode p = ShortBreak →
           currentMode (handleCycleModeClick p) = LongBreak) ∧
        (currentMode p = LongBreak →
           currentMode (handleCycleModeClick p) = Work))).
Proof.
  unfold handleCycleModeClick, getState, isRunning. split.
  - intros Hs. rewrite (bool_decide_eq_true_2 _ Hs). done.
  - intros Hs. rewrite Hs. simpl. split; [done|]. split.
    + intros ->. rewrite acknowledge_idle by done. done.
    + intros ->. repeat split.
      * destruct (currentMode p); reflexivity.
      * intros ->. reflexivity.
      * intros ->. reflexivity.
      * intros ->. reflexivity.
Qed.

Lemma mode_switch_request_witness :
  let p := on_timer 5000 (start DEFAULT_SETTINGS 5000 Work)
             (new_PomodoroPlugin DEFAULT_SETTINGS) in
  handleCycleModeClick p = show (Notice "Reset the timer to switch modes") p ∧
  currentMode (handleCycleModeClick p) = Work.
Proof.
  apply (mode_switch_request
           (on_timer 5000 (start DEFAULT_SETTINGS 5000 Work)
              (new_PomodoroPlugin DEFAULT_SETTINGS))).
  discriminate.
Defined.

Lemma plugin_tick_completes h now target p :
  reachable (timer p) (window p) →
  h ∈ live (window p) →
  targetTime (timer p) = Some target → target ≠ 0 →
  ceil_div (target - now) 1000 ≤ 0 →
  plugin_tick h now p =
  plugin_onTimerComplete now
    (set_engine (timer_of (stop (timer p) (window p)))
                (window_of (stop (timer p) (window p))) p).
Proof.
  intros Hr Hh Htg Hnz Hle. unfold plugin_tick, on_timer.
  rewrite fire_live by done.
  rewrite (interval_callback_done _ _ _ target) by done.
  rewrite stop_spec. reflexivity.
Qed.

(** X21: a session completes at [now] while [currentMode] is [Work] (the
    tick of the live countdown reaches zero; no earlier auto-start is
    pending).  With [autoStartBreaks] set, the completion schedules the
    auto-start 1000 ms later; when it fires with the completion still
    unacknowledged, [currentMode] becomes the computed [nextMode] and the
    engine is started in it; if the completion is acknowledged first, the
    auto-start changes nothing and the engine stays [Idle].  With
    [autoStartBreaks] unset no auto-start is scheduled, no pending timeout
    starts the engine, and after the acknowledgement scheduled 10000 ms
    later fires the engine is still [Idle]. *)
Theorem auto_start_breaks h now target p :
  reachable (timer p) (window p) →
  h ∈ live (window p) →
  targetTime (timer p) = Some target →
  target ≠ 0 →
  ceil_div (target - now) 1000 ≤ 0 →
  currentMode p = Work →
  Forall (λ x, x.2 = AcknowledgeLater) (timeouts p) →
  let p1 := plugin_tick h now p in
  let i := length (timeouts p) in
  isSessionComplete p1 = true ∧
  state (timer p1) = Idle ∧
  (nextMode p1 = ShortBreak ∨ nextMode p1 = LongBreak) ∧
  (autoStartBreaks (settings p) = true →
     timeouts p1 =
       timeouts p ++ [(now + 1000, AutoStart); (now + 10000, AcknowledgeLater)] ∧
     (∀ now', now + 1000 ≤ now' →
        let p2 := fire_timeout i now' p1 in
        currentMode p2 = nextMode p1 ∧
        state (timer p2) = nextMode p1 ∧
        isRunning (timer p2) = true ∧
        remainingTime (timer p2) = fresh_seconds (settings p) (nextMode p1) ∧
        targetTime (timer p2) =
          Some (now' + fresh_seconds (settings p) (nextMode p1) * 1000)) ∧
     (∀ now', now + 1000 ≤ now' →
        let q := acknowledgeSessionComplete p1 in
        let p2 := fire_timeout i now' q in
        isSessionComplete q = false ∧
        timer p2 = timer p1 ∧ window p2 = window p1 ∧
        state (timer p2) = Idle ∧
        currentMode p2 = currentMode q)) ∧
  (autoStartBreaks (settings p) = false →
     timeouts p1 = timeouts p ++ [(now + 10000, AcknowledgeLater)] ∧
     (∀ j now', timer (fire_timeout j now' p1) = timer p1 ∧
                window (fire_timeout j now' p1) = window p1) ∧
     (∀ now', now + 10000 ≤ now' →
        let p2 := fire_timeout i now' p1 in
        isSessionComplete p2 = false ∧
        state (timer p2) = Idle ∧
        isRunning (timer p2) = false ∧
        currentMode p2 = nextMode p1)).
Proof.
  intros Hr Hh Htg Hnz Hle Hw Hpend p1 i.
  subst p1 i. rewrite (plugin_tick_completes h now target) by done.
  rewrite plugin_onTimerComplete_spec, stop_spec.
  unfold timer_of, window_of. simpl.
  rewrite !bool_decide_eq_true_2 by done.
  rewrite !(bool_decide_eq_false_2 (currentMode p ≠ Work)) by tauto. simpl.
  split; [done|]. split; [done|]. split.
  { destruct (rem_is_zero _ _); auto. }
  split.
  - intros Ha. rewrite Ha. simpl. split; [done|]. split.
    + intros now' Hdue. unfold fire_timeout. simpl.
      rewrite list_lookup_middle by done.
      rewrite bool_decide_eq_true_2 by done. simpl.
      unfold on_timer. simpl.
      destruct (rem_is_zero _ _); simpl; repeat split.
    + intros now' Hdue. unfold acknowledgeSessionComplete, fire_timeout.
      simpl. rewrite list_lookup_middle by done.
      rewrite bool_decide_eq_true_2 by done. simpl. repeat split.
  - intros Ha. rewrite Ha. simpl. split; [done|]. split.
    + intros j now'. unfold fire_timeout. simpl.
      destruct ((timeouts p ++ [(now + 10000, AcknowledgeLater)]) !! j)
        as [[due k]|] eqn:Hj; [|done].
      destruct (bool_decide (due ≤ now')); [|done].
      assert (k = AcknowledgeLater) as ->.
      { apply list_elem_of_lookup_2 in Hj.
        apply elem_of_app in Hj as [Hin|Hin].
        - rewrite Forall_forall in Hpend. apply (Hpend _ Hin).
        - apply list_elem_of_singleton in Hin. by inversion Hin. }
      unfold run_timeout, acknowledgeSessionComplete. simpl. done.
    + intros now' Hdue. unfold fire_timeout. simpl.
      rewrite list_lookup_middle by done.
      rewrite bool_decide_eq_true_2 by done. simpl. repeat split.
Qed.

Lemma auto_start_breaks_witness :
  let p := handlePauseResumeClick 1000
             (new_PomodoroPlugin auto_break_settings) in
  let p1 := plugin_tick 1%positive 1501000 p in
  let p2 := fire_timeout 0 1502000 p1 in
  isSessionComplete p1 = true ∧
  currentMode p2 = ShortBreak ∧
  state (timer p2) = ShortBreak ∧
  remainingTime (timer p2) = 300.
Proof.
  destruct (auto_start_breaks 1%positive 1501000 1501000
              (handlePauseResumeClick 1000
                 (new_PomodoroPlugin auto_break_settings)))
    as (Hc & _ & _ & Hauto & _).
  - apply (reachable_call (call_start auto_break_settings 1000 Work)).
    apply reachable_new.
  - simpl. set_solver.
  - reflexivity.
  - lia.
  - vm_compute. discriminate.
  - reflexivity.
  - constructor.
  - destruct (Hauto eq_refl) as (_ & Hfire & _).
    destruct (Hfire 1502000 ltac:(lia)) as (Hm & Hs & _ & Hrem & _).
    split; [exact Hc|]. split; [exact Hm|]. split; [exact Hs|]. exact Hrem.
Defined.

(** C8: the claim asks that a Work session that completes with
    [autoStartBreaks] set starts the break after the grace delay, and that
    without [autoStartBreaks] the engine never starts by itself.  The
    auto-start is decided on [currentMode], which can part from the session
    the engine runs (a stale acknowledgement fired while the session was
    paused).  In both traces
    below a first Work session completes and is acknowledged by a click, the
    mode is cycled back to Work, and a second Work session is started,
    paused, and resumed after the first acknowledgement timer has fired:
    the engine runs [Work] while [currentMode] is [ShortBreak].  With
    [autoStartBreaks] set, the completion of that Work session schedules
    the acknowledgement only and the engine stays [Idle] after it fires;
    without it but with [autoStartPomodoros], the completion schedules an
    auto-start, which starts the engine a second later. *)
Theorem work_completion_skips_auto_start :
  let p :=
    foldl plugin_step (new_PomodoroPlugin auto_break_settings)
      [PauseResumeClick 0; IntervalFires 1%positive 1500000;
       PauseResumeClick 1500500; TimeoutFires 0 1501000;
       CycleModeClick; CycleModeClick;
       PauseResumeClick 1504000; PauseResumeClick 1505000;
       TimeoutFires 0 1510000; PauseResumeClick 1520000] in
  let p1 := plugin_step p (IntervalFires 3%positive 3020000) in
  let q :=
    foldl plugin_step (new_PomodoroPlugin auto_pomodoro_settings)
      [PauseResumeClick 0; IntervalFires 1%positive 1500000;
       PauseResumeClick 1501000; CycleModeClick; CycleModeClick;
       PauseResumeClick 1504000; PauseResumeClick 1505000;
       TimeoutFires 0 1510000; PauseResumeClick 1520000] in
  let q1 := plugin_step q (IntervalFires 3%positive 3020000) in
  (state (timer p) = Work ∧ currentMode p = ShortBreak ∧
   autoStartBreaks (settings p) = true ∧ timeouts p = [] ∧
   calls_of (fire 3%positive 3020000 (timer p) (window p)) =
     [onTick 0 1500; onTick 0 0; onTimerComplete; onStateChange Work] ∧
   isSessionComplete p1 = true ∧
   timeouts p1 = [(3030000, AcknowledgeLater)] ∧
   state (timer (fire_timeout 0 3030000 p1)) = Idle ∧
   timeouts (fire_timeout 0 3030000 p1) = []) ∧
  (state (timer q) = Work ∧ currentMode q = ShortBreak ∧
   autoStartBreaks (settings q) = false ∧ timeouts q = [] ∧
   calls_of (fire 3%positive 3020000 (timer q) (window q)) =
     [onTick 0 1500; onTick 0 0; onTimerComplete; onStateChange Work] ∧
   isSessionComplete q1 = true ∧
   timeouts q1 = [(3021000, AutoStart); (3030000, AcknowledgeLater)] ∧
   state (timer (fire_timeout 0 3021000 q1)) = Work ∧
   remainingTime (timer (fire_timeout 0 3021000 q1)) = 1500).
Proof. vm_compute. repeat split. Qed.

(** ** Further properties of the engine *)

Lemma run_calls_reachable cs t w :
  reachable t w →
  reachable (timer_of (run_calls cs t w)) (window_of (run_calls cs t w)).
Proof.
  revert t w. induction cs as [|c cs IH]; intros t w Hr; [done|].
  simpl. pose proof (reachable_call c t w Hr) as H1.
  destruct (run_call c t w) as [[t1 w1] out1].
  specialize (IH t1 w1 H1).
  destruct (run_calls cs t1 w1) as [[t2 w2] out2]. exact IH.
Qed.

Lemma run_call_window c t w :
  engine_inv t w →
  live (window_of (run_call c t w)) ⊆ live w ∪ {[ nextHandle w ]} ∧
  (nextHandle (window_of (run_call c t w)) = nextHandle w ∧
   live (window_of (run_call c t w)) ⊆ live w ∨
   nextHandle (window_of (run_call c t w)) = Pos.succ (nextHandle w)).
Proof.
  intros Hinv.
  assert (∀ cfg now s,
    live (window_of (start cfg now s t w)) ⊆ live w ∪ {[ nextHandle w ]} ∧
    (nextHandle (window_of (start cfg now s t w)) = nextHandle w ∧
     live (window_of (start cfg now s t w)) ⊆ live w ∨
     nextHandle (window_of (start cfg now s t w)) = Pos.succ (nextHandle w)))
    as Hstart.
  { intros cfg now s. destruct (is_mode_cases s) as [Hm|Hm].
    - rewrite start_mode by done. simpl. split; [set_solver|by right].
    - rewrite start_control by tauto. simpl. split; [set_solver|by left]. }
  assert (live (window_of (stop t w)) ⊆ live w ∪ {[ nextHandle w ]} ∧
    (nextHandle (window_of (stop t w)) = nextHandle w ∧
     live (window_of (stop t w)) ⊆ live w ∨
     nextHandle (window_of (stop t w)) = Pos.succ (nextHandle w))) as Hstop.
  { rewrite stop_spec. simpl. split; [set_solver|left; set_solver]. }
  destruct c as [cfg now s| |cfg now| | |h now]; simpl.
  - apply Hstart.
  - unfold pause. destruct (intervalId t); [|split; [set_solver|by left]].
    destruct (_ && _); simpl; (split; [set_solver|left; set_solver]).
  - unfold resume. destruct (bool_decide _); [apply Hstart|].
    split; [set_solver|by left].
  - apply Hstop.
  - destruct (reset_stop t w) as (_ & -> & _). apply Hstop.
  - unfold fire. destruct (bool_decide _); [|split; [set_solver|by left]].
    unfold interval_callback.
    destruct (targetTime t); [|split; [set_solver|by left]].
    destruct (bool_decide (_ = 0)); [split; [set_solver|by left]|].
    simpl. destruct (bool_decide _); [|split; [set_solver|by left]].
    rewrite stop_spec. simpl. split; [set_solver|left; set_solver].
Qed.

Lemma reachable_fresh t w :
  reachable t w → ∀ h, h ∈ live w → (h < nextHandle w)%positive.
Proof.
  induction 1 as [|c t w Hr IH]; [set_solver|].
  intros h Hh.
  destruct (run_call_window c t w (reachable_inv _ _ Hr)) as [Hsub Hnext].
  destruct Hnext as [[-> Hsub']| ->].
  - apply IH. set_solver.
  - apply Hsub in Hh. apply elem_of_union in Hh as [Hh|Hh].
    + specialize (IH h Hh). lia.
    + apply elem_of_singleton in Hh as ->. lia.
Qed.

(** X1: at most one interval is live at a time.  In every reachable state the
    live handles are exactly [intervalId], every one of them was handed out
    before [nextHandle], and [start] on an engine that already holds a handle
    cancels it and installs a different one. *)
Theorem one_live_interval t w :
  reachable t w →
  (∀ h, h ∈ live w ↔ intervalId t = Some h) ∧
  (size (live w) = 0%nat ∨ size (live w) = 1%nat) ∧
  (∀ h, h ∈ live w → (h < nextHandle w)%positive) ∧
  (∀ cfg now m h, is_mode m → intervalId t = Some h →
     let o := start cfg now m t w in
     (h ∉ live (window_of o)) ∧
     intervalId (timer_of o) = Some (nextHandle w) ∧
     live (window_of o) = {[ nextHandle w ]} ∧
     nextHandle w ≠ h).
Proof.
  intros Hr. pose proof (reachable_fresh _ _ Hr) as Hfresh.
  pose proof (reachable_inv _ _ Hr) as [Ht Hi Hl Hp Hz].
  split; [|split; [|split]].
  - intros h. rewrite Hl. destruct (intervalId t) as [h'|]; simpl.
    + rewrite elem_of_singleton. split; [by intros ->|by intros [= ->]].
    + split; [set_solver|done].
  - rewrite Hl. destruct (intervalId t); unfold handles.
    + right. apply size_singleton.
    + left. apply size_empty.
  - exact Hfresh.
  - intros cfg now m h Hm Hh.
    assert (h ∈ live w) as Hlive by (rewrite Hl, Hh; set_solver).
    specialize (Hfresh h Hlive).
    assert (nextHandle w ≠ h) as Hne by lia.
    rewrite start_mode by done. simpl. rewrite Hl, Hh. simpl.
    split; [set_solver|]. split; [done|]. split; [set_solver|done].
Qed.

Lemma one_live_interval_witness :
  let o := run_calls [call_start DEFAULT_SETTINGS 5000 Work;
                      call_start DEFAULT_SETTINGS 6000 ShortBreak]
                     new_PomoTimer new_Window in
  size (live (window_of o)) = 0%nat ∨ size (live (window_of o)) = 1%nat.
Proof.
  apply (one_live_interval
           (timer_of (run_calls [call_start DEFAULT_SETTINGS 5000 Work;
                                 call_start DEFAULT_SETTINGS 6000 ShortBreak]
                                new_PomoTimer new_Window))
           (window_of (run_calls [call_start DEFAULT_SETTINGS 5000 Work;
                                  call_start DEFAULT_SETTINGS 6000 ShortBreak]
                                 new_PomoTimer new_Window))).
  apply run_calls_reachable, reachable_new.
Defined.

Lemma run_call_positive c t w :
  engine_inv t w → positive_times t → positive_call c →
  positive_times (timer_of (run_call c t w)).
Proof.
  intros [Ht Hi Hl Hp Hz] [Hidle Hbusy] Hc.
  assert (∀ cfg now s, positive_settings cfg →
            positive_times (timer_of (start cfg now s t w))) as Hstart.
  { intros cfg now s (H1 & H2 & H3). destruct (is_mode_cases s) as [Hm|Hm].
    - rewrite start_mode by done. unfold positive_times. simpl.
      split; [intros ->; destruct Hm as [?|[?|?]]; discriminate|].
      intros _. destruct (bool_decide_reflect (remainingTime t ≤ 0)) as [Hle|Hgt].
      + destruct Hm as [-> | [-> | ->]]; simpl; lia.
      + destruct (decide (state t = Idle)) as [Hs|Hs].
        * destruct (Hidle Hs). lia.
        * apply Hbusy, Hs.
    - rewrite start_control by tauto. by split. }
  assert (positive_times (timer_of (stop t w))) as Hstop.
  { rewrite stop_spec. split; simpl; [done|congruence]. }
  destruct c as [cfg now s| |cfg now| | |h now]; simpl in *.
  - by apply Hstart.
  - unfold pause. destruct (intervalId t); [|by split].
    destruct (bool_decide_reflect (state t ≠ Idle)) as [Hs|Hs]; [|by split].
    destruct (bool_decide (state t ≠ Paused)); simpl; [|by split].
    split; simpl; [discriminate|]. intros _. by apply Hbusy.
  - unfold resume. destruct (bool_decide _); [by apply Hstart|by split].
  - exact Hstop.
  - destruct (reset_stop t w) as (-> & _ & _). exact Hstop.
  - unfold fire. destruct (bool_decide _); [|by split].
    unfold interval_callback.
    destruct (targetTime t) as [target|] eqn:Htg; [|by split].
    destruct (bool_decide (target = 0)); [by split|].
    simpl. destruct (bool_decide_reflect (ceil_div (target - now) 1000 ≤ 0)).
    + rewrite stop_spec. split; simpl; [done|congruence].
    + assert (is_mode (state t)) as Hm by (apply Ht; eauto).
      apply is_mode_not_control in Hm as [Hni _].
      split; simpl; [done|]. intros _. split; [lia|by apply Hbusy].
Qed.

Lemma run_calls_positive cs t w :
  engine_inv t w → positive_times t → Forall positive_call cs →
  engine_inv (timer_of (run_calls cs t w)) (window_of (run_calls cs t w)) ∧
  positive_times (timer_of (run_calls cs t w)).
Proof.
  intros Hinv Hpos Hcs. revert t w Hinv Hpos.
  induction Hcs as [|c cs Hc Hcs IH]; intros t w Hinv Hpos; [done|].
  simpl. pose proof (run_call_inv c t w Hinv) as H1.
  pose proof (run_call_positive c t w Hinv Hpos Hc) as H2.
  destruct (run_call c t w) as [[t1 w1] out1].
  specialize (IH t1 w1 H1 H2).
  destruct (run_calls cs t1 w1) as [[t2 w2] out2]. exact IH.
Qed.

(** X2: when every [start] and [resume] is made with positive durations, the
    engine has time left exactly when it is not [Idle]: [remainingTime] and
    [totalTime] are positive while a session runs or is paused and both are
    zero when [Idle].  Hence [start(m)] begins a fresh session of the
    configured length exactly on an [Idle] engine and otherwise keeps the
    time that is left and the session total. *)
Theorem time_left_iff_not_idle cs :
  Forall positive_call cs →
  let o := run_calls cs new_PomoTimer new_Window in
  (state (timer_of o) = Idle ↔ remainingTime (timer_of o) = 0) ∧
  (state (timer_of o) = Idle → totalTime (timer_of o) = 0) ∧
  (state (timer_of o) ≠ Idle →
     0 < remainingTime (timer_of o) ∧ 0 < totalTime (timer_of o)) ∧
  (∀ cfg now m, is_mode m →
     let o' := start cfg now m (timer_of o) (window_of o) in
     state (timer_of o') = m ∧
     (state (timer_of o) = Idle →
        remainingTime (timer_of o') = fresh_seconds cfg m ∧
        totalTime (timer_of o') = fresh_seconds cfg m) ∧
     (state (timer_of o) ≠ Idle →
        remainingTime (timer_of o') = remainingTime (timer_of o) ∧
        totalTime (timer_of o') = totalTime (timer_of o))).
Proof.
  intros Hcs.
  assert (positive_times new_PomoTimer) as Hnew by (split; simpl; [done|congruence]).
  destruct (run_calls_positive cs _ _ new_inv Hnew Hcs) as [_ [Hidle Hbusy]].
  simpl. set (t := timer_of (run_calls cs new_PomoTimer new_Window)) in *.
  set (w := window_of (run_calls cs new_PomoTimer new_Window)).
  split; [|split; [|split]].
  - split; [by intros Hs; apply Hidle|].
    intros Hz. destruct (decide (state t = Idle)) as [Hs|Hs]; [done|].
    destruct (Hbusy Hs). lia.
  - by intros Hs; apply Hidle.
  - exact Hbusy.
  - intros cfg now m Hm. rewrite start_mode by done. simpl.
    split; [done|]. split.
    + intros Hs. destruct (Hidle Hs) as [Hr _].
      rewrite Hr, bool_decide_eq_true_2 by lia. done.
    + intros Hs. destruct (Hbusy Hs) as [Hr _].
      rewrite bool_decide_eq_false_2 by lia. done.
Qed.

Lemma time_left_iff_not_idle_witness :
  let o := run_calls [call_start DEFAULT_SETTINGS 5000 Work;
                      call_fire 1%positive 6000; call_pause]
                     new_PomoTimer new_Window in
  state (timer_of o) = Paused ∧
  0 < remainingTime (timer_of o) ∧ 0 < totalTime (timer_of o).
Proof.
  split; [reflexivity|].
  apply (time_left_iff_not_idle
           [call_start DEFAULT_SETTINGS 5000 Work;
            call_fire 1%positive 6000; call_pause]).
  - repeat constructor; simpl; unfold positive_settings; simpl; lia.
  - discriminate.
Defined.

Lemma run_calls_app cs1 cs2 t w :
  run_calls (cs1 ++ cs2) t w =
  (timer_of (run_calls cs2 (timer_of (run_calls cs1 t w))
                           (window_of (run_calls cs1 t w))),
   window_of (run_calls cs2 (timer_of (run_calls cs1 t w))
                            (window_of (run_calls cs1 t w))),
   calls_of (run_calls cs1 t w) ++
   calls_of (run_calls cs2 (timer_of (run_calls cs1 t w))
                           (window_of (run_calls cs1 t w)))).
Proof.
  revert t w. induction cs1 as [|c cs1 IH]; intros t w.
  - unfold timer_of, window_of, calls_of. simpl.
    by destruct (run_calls cs2 t w) as [[??]?].
  - cbn [app run_calls]. destruct (run_call c t w) as [[t1 w1] out1].
    rewrite IH. unfold timer_of, window_of, calls_of.
    destruct (run_calls cs1 t1 w1) as [[t2 w2] out2]. simpl.
    destruct (run_calls cs2 t2 w2) as [[t3 w3] out3]. simpl.
    by rewrite app_assoc.
Qed.

Lemma run_calls_one c t w : run_calls [c] t w = run_call c t w.
Proof.
  simpl. destruct (run_call c t w) as [[t1 w1] out1]. by rewrite app_nil_r.
Qed.

Lemma ceil_div_nonpos x : ceil_div x 1000 ≤ 0 ↔ x ≤ 0.
Proof. pose proof (ceil_div_pos x). lia. Qed.

Lemma ceil_div_mono x y : x ≤ y → ceil_div x 1000 ≤ ceil_div y 1000.
Proof.
  intros Hxy.
  pose proof (proj1 (ceil_div_spec x _) eq_refl).
  pose proof (proj1 (ceil_div_spec y _) eq_refl). lia.
Qed.

(** X3: the value a tick reports, and whether it completes the session,
    depends on [targetTime] and the clock only: after any ticks that fired
    before the deadline, or none at all, the tick at [now] leaves the same
    engine and window and makes the same calls as if it were the first. *)
Theorem tick_ignores_earlier_ticks h ts now t w target :
  h ∈ live w →
  targetTime t = Some target →
  target ≠ 0 →
  Forall (λ x, x < target) ts →
  let o := run_calls (call_fire h <$> ts) t w in
  let direct := fire h now t w in
  calls_of o = (λ x, onTick (ceil_div (target - x) 1000) (totalTime t)) <$> ts ∧
  fire h now (timer_of o) (window_of o) = direct ∧
  (now < target →
     calls_of direct = [onTick (ceil_div (target - now) 1000) (totalTime t)]) ∧
  (target ≤ now →
     calls_of direct =
       [onTick (ceil_div (target - now) 1000) (totalTime t); onTick 0 0;
        onTimerComplete; onStateChange (state t)]).
Proof.
  intros Hh Htg Hnz Hts. cbn zeta.
  rewrite (ticks_before_target h ts t w target) by done.
  unfold timer_of, window_of, calls_of. cbn [fst snd].
  split; [done|].
  assert (∀ r, fire h now (set_remainingTime r t) w = fire h now t w) as Hset.
  { intros r. rewrite !fire_live by done.
    destruct (decide (target ≤ now)) as [Hle|Hgt].
    - rewrite !(interval_callback_done _ _ _ target)
        by (done || by apply ceil_div_nonpos; lia). done.
    - rewrite !(interval_callback_going _ _ _ target)
        by (done || by apply ceil_div_pos; lia). done. }
  split; [|split].
  - destruct (last ts); [apply Hset|done].
  - intros Hlt. rewrite fire_live by done.
    rewrite (interval_callback_going _ _ _ target)
      by (done || by apply ceil_div_pos; lia). done.
  - intros Hle. rewrite fire_live by done.
    rewrite (interval_callback_done _ _ _ target)
      by (done || by apply ceil_div_nonpos; lia). done.
Qed.

Lemma tick_ignores_earlier_ticks_witness :
  let o0 := start DEFAULT_SETTINGS 5000 Work new_PomoTimer new_Window in
  let o := run_calls (call_fire 1%positive <$> [6000; 7000; 9500])
             (timer_of o0) (window_of o0) in
  fire 1%positive 10000 (timer_of o) (window_of o) =
  fire 1%positive 10000 (timer_of o0) (window_of o0).
Proof.
  apply (tick_ignores_earlier_ticks 1%positive [6000; 7000; 9500] 10000
           (timer_of (start DEFAULT_SETTINGS 5000 Work
                        new_PomoTimer new_Window))
           (window_of (start DEFAULT_SETTINGS 5000 Work
                         new_PomoTimer new_Window))
           1505000).
  - simpl. set_solver.
  - reflexivity.
  - lia.
  - repeat constructor; lia.
Defined.

Lemma reported_ticks (f : Z → Z) (tot : Z) (ts : list Z) :
  reported ((λ x, onTick (f x) tot) <$> ts) = f <$> ts.
Proof. unfold reported. induction ts as [|x ts IH]; csimpl; [done|]. by f_equal. Qed.

(** X4: a session of [d] configured minutes started afresh at [t0] ends at
    the first tick that fires [d * 60] seconds or more after [t0], never
    before, however many earlier ticks fired or were missed.  Until then each
    tick reports the seconds to the deadline, rounded up, and the engine
    stays in the session; the completing tick notifies once with the session
    kind and leaves the engine [Idle]. *)
Theorem session_ends_at_deadline cfg t w t0 m d ts now :
  configured_minutes cfg m = Some d →
  0 < d →
  remainingTime t ≤ 0 →
  0 ≤ t0 →
  Forall (λ x, x < t0 + d * 60000) ts →
  let o := run_calls (call_start cfg t0 m ::
                      (call_fire (nextHandle w) <$> ts) ++
                      [call_fire (nextHandle w) now]) t w in
  (now < t0 + d * 60000 →
     completions (calls_of o) = 0%nat ∧
     state (timer_of o) = m ∧
     remainingTime (timer_of o) = ceil_div (t0 + d * 60000 - now) 1000 ∧
     0 < remainingTime (timer_of o) ∧
     totalTime (timer_of o) = d * 60) ∧
  (t0 + d * 60000 ≤ now →
     completions (calls_of o) = 1%nat ∧
     state_changes (calls_of o) = [m] ∧
     state (timer_of o) = Idle ∧
     remainingTime (timer_of o) = 0 ∧
     nextHandle w ∉ live (window_of o)).
Proof.
  intros Hd Hpos Hfresh Ht0 Hts. apply configured_minutes_mode in Hd as [Hm Hf].
  cbn zeta. cbn [run_calls run_call]. rewrite start_mode by done. cbn zeta.
  rewrite bool_decide_eq_true_2 by done. rewrite Hf.
  set (t1 := {| state := m; prePauseState := prePauseState t;
                remainingTime := d * 60; totalTime := d * 60;
                targetTime := Some (t0 + d * 60 * 1000);
                intervalId := Some (nextHandle w) |}).
  set (w1 := {| live := {[nextHandle w]} ∪ live w ∖ handles (intervalId t);
                nextHandle := Pos.succ (nextHandle w) |}).
  assert (nextHandle w ∈ live w1) as Hlive by (simpl; set_solver).
  assert (Forall (λ x, x < t0 + d * 60 * 1000) ts) as Hts'
    by (eapply Forall_impl; [exact Hts|]; simpl; lia).
  rewrite run_calls_app, run_calls_one.
  rewrite (ticks_before_target _ ts t1 w1 (t0 + d * 60 * 1000))
    by (done || lia).
  unfold timer_of, window_of, calls_of. cbn [fst snd run_call].
  assert (∀ r, fire (nextHandle w) now (set_remainingTime r t1) w1 =
               fire (nextHandle w) now t1 w1) as Hset.
  { intros r. rewrite !fire_live by done.
    destruct (decide (t0 + d * 60 * 1000 ≤ now)) as [Hle|Hgt].
    - rewrite !(interval_callback_done _ _ _ (t0 + d * 60 * 1000))
        by (done || lia || by apply ceil_div_nonpos; lia). done.
    - rewrite !(interval_callback_going _ _ _ (t0 + d * 60 * 1000))
        by (done || lia || by apply ceil_div_pos; lia). done. }
  assert (fire (nextHandle w) now
            match last ts with
            | Some x =>
              set_remainingTime (ceil_div (t0 + d * 60 * 1000 - x) 1000) t1
            | None => t1
            end w1 = fire (nextHandle w) now t1 w1) as ->
    by (destruct (last ts); [apply Hset|done]).
  assert (∀ cs, completions
            (onTick (d * 60) (d * 60) ::
             ((λ x, onTick (ceil_div (t0 + d * 60 * 1000 - x) 1000)
                           (totalTime t1)) <$> ts) ++ cs) = completions cs
          ∧ state_changes
            (onTick (d * 60) (d * 60) ::
             ((λ x, onTick (ceil_div (t0 + d * 60 * 1000 - x) 1000)
                           (totalTime t1)) <$> ts) ++ cs) = state_changes cs)
    as Hskip.
  { intros cs. unfold completions, state_changes.
    rewrite filter_cons_False by done. simpl.
    induction ts as [|x ts IH]; [done|].
    inversion Hts; inversion Hts'; subst. simpl.
    rewrite filter_cons_False by done. by apply IH. }
  rewrite fire_live by done. split.
  - intros Hlt.
    rewrite (interval_callback_going _ _ _ (t0 + d * 60 * 1000))
      by (done || lia || by apply ceil_div_pos; lia).
    cbn [fst snd app].
    destruct (Hskip [onTick (ceil_div (t0 + d * 60 * 1000 - now) 1000)
                            (totalTime t1)]) as [-> _].
    simpl. replace (t0 + d * 60 * 1000) with (t0 + d * 60000) by lia.
    repeat split. apply ceil_div_pos. lia.
  - intros Hle.
    rewrite (interval_callback_done _ _ _ (t0 + d * 60 * 1000))
      by (done || lia || by apply ceil_div_nonpos; lia).
    cbn [fst snd app].
    destruct (Hskip [onTick (ceil_div (t0 + d * 60 * 1000 - now) 1000)
                            (totalTime t1); onTick 0 0; onTimerComplete;
                     onStateChange (state t1)]) as [-> ->].
    split; [|split; [|split; [|split]]]; try done.
    simpl. set_solver.
Qed.

Lemma session_ends_at_deadline_witness :
  let o := run_calls (call_start DEFAULT_SETTINGS 5000 ShortBreak ::
                      (call_fire 1%positive <$> [6000; 200000]) ++
                      [call_fire 1%positive 305000])
                     new_PomoTimer new_Window in
  completions (calls_of o) = 1%nat ∧ state (timer_of o) = Idle.
Proof.
  destruct (session_ends_at_deadline DEFAULT_SETTINGS new_PomoTimer new_Window
              5000 ShortBreak 5 [6000; 200000] 305000) as [_ H].
  - reflexivity.
  - lia.
  - simpl. lia.
  - lia.
  - repeat constructor; lia.
  - destruct (H ltac:(lia)) as (Hc & _ & Hs & _). split; [exact Hc|exact Hs].
Defined.

(** X5: while the clock does not run backwards the countdown never goes up.
    For a session that holds [r] seconds when [start] returns at [t0], the
    ticks that fire at non-decreasing times before the deadline report
    values that never increase, each between 1 and [r]. *)
Theorem reports_never_increase cfg t w t0 m ts :
  is_mode m →
  0 ≤ t0 →
  0 < remainingTime (timer_of (start cfg t0 m t w)) →
  StronglySorted Z.le ts →
  Forall (λ x, t0 ≤ x <
               t0 + 1000 * remainingTime (timer_of (start cfg t0 m t w))) ts →
  let o0 := start cfg t0 m t w in
  let r := remainingTime (timer_of o0) in
  let o := run_calls (call_fire (nextHandle w) <$> ts)
                     (timer_of o0) (window_of o0) in
  reported (calls_of o) = (λ x, ceil_div (t0 + 1000 * r - x) 1000) <$> ts ∧
  StronglySorted Z.ge (reported (calls_of o)) ∧
  Forall (λ v, 1 ≤ v ≤ r) (reported (calls_of o)).
Proof.
  intros Hm Ht0. rewrite start_mode by done. cbn zeta.
  set (r := if bool_decide (remainingTime t ≤ 0) then _ else _).
  set (tot := if bool_decide (remainingTime t ≤ 0) then _ else totalTime t).
  unfold timer_of, window_of. cbn [fst snd remainingTime].
  intros Hr Hsorted Hts. clearbody r tot.
  rewrite (ticks_before_target _ ts _ _ (t0 + r * 1000)); cycle 1.
  { reflexivity. } { lia. } { simpl. set_solver. }
  { eapply Forall_impl; [exact Hts|]. simpl. lia. }
  unfold calls_of. cbn [snd totalTime]. rewrite reported_ticks.
  replace (λ x, ceil_div (t0 + r * 1000 - x) 1000)
    with (λ x, ceil_div (t0 + 1000 * r - x) 1000); cycle 1.
  { replace (t0 + r * 1000) with (t0 + 1000 * r) by lia. done. }
  split; [done|]. split.
  - eapply StronglySorted_fmap; [|exact Hsorted].
    intros x y Hxy. apply Z.le_ge, ceil_div_mono. lia.
  - apply Forall_fmap. eapply Forall_impl; [exact Hts|].
    intros x Hx. cbn beta in *. split.
    + assert (0 < ceil_div (t0 + 1000 * r - x) 1000)
        by (apply ceil_div_pos; lia). lia.
    + rewrite <- (ceil_div_exact r) at 2. apply ceil_div_mono. lia.
Qed.

Lemma reports_never_increase_witness :
  let o0 := start DEFAULT_SETTINGS 5000 Work new_PomoTimer new_Window in
  let o := run_calls (call_fire 1%positive <$> [6000; 6500; 9000])
                     (timer_of o0) (window_of o0) in
  StronglySorted Z.ge (reported (calls_of o)).
Proof.
  apply (reports_never_increase DEFAULT_SETTINGS new_PomoTimer new_Window
           5000 Work [6000; 6500; 9000]).
  - left; reflexivity.
  - lia.
  - vm_compute. reflexivity.
  - repeat constructor; lia.
  - repeat constructor; vm_compute; try discriminate; reflexivity.
Defined.

(** X6: [reset] discards the time of the session it ends.  Whatever the
    engine held (a running or a paused session, any time left), a [start(m)]
    after [reset()] begins a full session of the configured length, counted
    from the time of that [start]. *)
Theorem start_after_reset_is_fresh cfg now m d t w :
  configured_minutes cfg m = Some d →
  let o := reset t w in
  let o' := start cfg now m (timer_of o) (window_of o) in
  state (timer_of o') = m ∧
  remainingTime (timer_of o') = d * 60 ∧
  totalTime (timer_of o') = d * 60 ∧
  targetTime (timer_of o') = Some (now + d * 60 * 1000) ∧
  calls_of o' = [onTick (d * 60) (d * 60)].
Proof.
  intros Hd. apply configured_minutes_mode in Hd as [Hm Hf]. cbn zeta.
  destruct (reset_stop t w) as (-> & -> & _). rewrite stop_spec.
  unfold timer_of, window_of, calls_of. cbn [fst snd].
  rewrite start_mode by done. simpl. rewrite Hf. done.
Qed.

Lemma start_after_reset_is_fresh_witness :
  let o0 := run_calls [call_start DEFAULT_SETTINGS 5000 Work;
                       call_fire 1%positive 65000; call_pause]
                      new_PomoTimer new_Window in
  let o := reset (timer_of o0) (window_of o0) in
  remainingTime (timer_of o0) = 1440 ∧
  remainingTime (timer_of (start DEFAULT_SETTINGS 90000 LongBreak
                             (timer_of o) (window_of o))) = 15 * 60.
Proof.
  split; [reflexivity|].
  apply (start_after_reset_is_fresh DEFAULT_SETTINGS 90000 LongBreak 15).
  reflexivity.
Defined.

(** X7: repeating a command does nothing.  In every reachable state a second
    [pause()] right after a [pause()], and a second [resume()] right after a
    [resume()], return the engine and the window unchanged and make no
    callback; [resume()] on an engine that is not [Paused] does the same. *)
Theorem repeated_commands_do_nothing t w :
  reachable t w →
  (let o := pause t w in
   pause (timer_of o) (window_of o) = (timer_of o, window_of o, [])) ∧
  (∀ cfg now cfg' now',
     let o := resume cfg now t w in
     resume cfg' now' (timer_of o) (window_of o) =
       (timer_of o, window_of o, [])) ∧
  (state t ≠ Paused → ∀ cfg now, resume cfg now t w = (t, w, [])).
Proof.
  intros Hr. pose proof (reachable_inv _ _ Hr) as [Ht Hi Hl Hp Hz].
  split; [|split].
  - cbn zeta. destruct (decide (is_mode (state t))) as [Hm|Hm].
    + destruct (proj2 Hi Hm) as [h Hh]. rewrite (pause_mode t w h) by done.
      unfold timer_of, window_of. simpl. reflexivity.
    + rewrite (pause_control t w Hm). unfold timer_of, window_of. simpl.
      by apply pause_control.
  - intros cfg now cfg' now'. cbn zeta.
    destruct (decide (state t = Paused)) as [Hs|Hs].
    + specialize (Hp Hs).
      assert (resume cfg now t w = start cfg now (prePauseState t) t w) as ->
        by (unfold resume; by rewrite bool_decide_eq_true_2).
      rewrite start_mode by done.
      unfold timer_of, window_of, resume. simpl.
      rewrite bool_decide_eq_false_2; [done|].
      intros Heq. rewrite Heq in Hp. destruct Hp as [?|[?|?]]; discriminate.
    + assert (resume cfg now t w = (t, w, [])) as ->
        by (unfold resume; by rewrite bool_decide_eq_false_2).
      unfold timer_of, window_of, resume. simpl.
      by rewrite bool_decide_eq_false_2.
  - intros Hs cfg now. unfold resume. by rewrite bool_decide_eq_false_2.
Qed.

Lemma repeated_commands_do_nothing_witness :
  let o0 := start DEFAULT_SETTINGS 5000 Work new_PomoTimer new_Window in
  let o := pause (timer_of o0) (window_of o0) in
  pause (timer_of o) (window_of o) = (timer_of o, window_of o, []).
Proof.
  apply (repeated_commands_do_nothing
           (timer_of (run_call (call_start DEFAULT_SETTINGS 5000 Work)
                               new_PomoTimer new_Window))
           (window_of (run_call (call_start DEFAULT_SETTINGS 5000 Work)
                                new_PomoTimer new_Window))).
  apply reachable_call, reachable_new.
Defined.

(** ** Further properties of the sequencer *)

Lemma completions_cons c cs :
  completions (c :: cs) =
  match c with
  | onTimerComplete => S (completions cs)
  | _ => completions cs
  end.
Proof.
  unfold completions. destruct c.
  - by rewrite filter_cons_False.
  - by rewrite filter_cons_False.
  - by rewrite filter_cons_True.
Qed.

(** Running the callbacks of an engine call runs [onTimerComplete] once per
    completion notified. *)
Lemma callbacks_fold now cs p :
  foldl (handle_callback now) p cs =
  Nat.iter (completions cs) (plugin_onTimerComplete now) p.
Proof.
  revert p. induction cs as [|c cs IH]; intros p; [done|].
  rewrite completions_cons. cbn [foldl]. rewrite IH.
  destruct c; [done..|]. cbn [handle_callback]. by rewrite Nat.iter_succ_r.
Qed.

Lemma completions_at_most_one c t w :
  completions (calls_of (run_call c t w)) = 0%nat ∨
  (completions (calls_of (run_call c t w)) = 1%nat ∧
   ∃ h now, c = call_fire h now).
Proof.
  rewrite completions_only_at_zero. destruct c; auto.
  destruct (targetTime t); auto. destruct (bool_decide _); eauto.
Qed.

(** What an engine call does to the plugin: the engine is replaced, and a
    completion, if the call notified one, is handled. *)
Lemma on_timer_call now c p :
  on_timer now (run_call c) p =
    set_engine (timer_of (run_call c (timer p) (window p)))
               (window_of (run_call c (timer p) (window p))) p ∨
  (on_timer now (run_call c) p =
     plugin_onTimerComplete now
       (set_engine (timer_of (run_call c (timer p) (window p)))
                   (window_of (run_call c (timer p) (window p))) p) ∧
   ∃ h now', c = call_fire h now').
Proof.
  unfold on_timer. rewrite callbacks_fold.
  destruct (completions_at_most_one c (timer p) (window p)) as [-> | [-> ?]];
    [by left|by right].
Qed.

Lemma modes_ok_complete now p :
  modes_ok p → modes_ok (plugin_onTimerComplete now p).
Proof.
  intros [Hc Hn]. rewrite plugin_onTimerComplete_spec. split; simpl; [done|].
  unfold is_mode. destruct (bool_decide _); [destruct (rem_is_zero _ _)|];
    auto.
Qed.

Lemma modes_ok_on_timer now c p :
  modes_ok p → modes_ok (on_timer now (run_call c) p).
Proof.
  intros Hp. destruct (on_timer_call now c p) as [-> | [-> _]];
    [done|by apply modes_ok_complete].
Qed.

Lemma modes_ok_acknowledge p :
  modes_ok p → modes_ok (acknowledgeSessionComplete p).
Proof.
  intros [Hc Hn]. unfold acknowledgeSessionComplete. simpl.
  by destruct (negb _).
Qed.

Lemma modes_ok_step p e : modes_ok p → modes_ok (plugin_step p e).
Proof.
  intros Hp. destruct e as [now| | | |cfg|h now|i now]; simpl.
  - unfold handlePauseResumeClick.
    destruct (isSessionComplete p); [by apply modes_ok_acknowledge|].
    destruct (_ || _); [destruct (bool_decide _)|].
    + by apply (modes_ok_on_timer now (call_resume (settings p) now)).
    + by apply (modes_ok_on_timer now call_pause).
    + by apply (modes_ok_on_timer now
                  (call_start (settings p) now (currentMode p))).
  - unfold handleResetClick.
    by apply (modes_ok_on_timer 0 call_reset).
  - unfold handleCycleModeClick. destruct (_ || _); [done|].
    destruct (isSessionComplete p); [by apply modes_ok_acknowledge|].
    destruct Hp as [Hc Hn].
    destruct (currentMode p) eqn:E; (split; simpl; [|done]);
      rewrite ?E; unfold is_mode in *; auto.
  - unfold pieButton_onclick.
    destruct (isSessionComplete p); [by apply modes_ok_acknowledge|done].
  - done.
  - by apply (modes_ok_on_timer now (call_fire h now)).
  - unfold fire_timeout. destruct (timeouts p !! i) as [[due k]|]; [|done].
    destruct (bool_decide (due ≤ now)); [|done].
    destruct k; simpl.
    + destruct (isSessionComplete p); [|done].
      apply (modes_ok_on_timer now
               (call_start (settings p) now (nextMode p))
               (set_currentMode (nextMode p)
                  (set_timeouts (delete i (timeouts p)) p))).
      destruct Hp. by split.
    + by apply (modes_ok_acknowledge
                  (set_timeouts (delete i (timeouts p)) p)).
Qed.

Lemma plugin_reachable_modes p : plugin_reachable p → modes_ok p.
Proof.
  induction 1 as [cfg|p e _ IH].
  - split; [by left|by right; left].
  - by apply modes_ok_step.
Qed.

(** X8: the sequencer only ever holds session kinds.  In every reachable
    plugin state [currentMode] and [nextMode] are [Work], [ShortBreak] or
    [LongBreak], so the [start(currentMode)] of the time button and of the
    auto-start is never rejected by the engine: on an idle engine it begins
    a session of [currentMode] with the configured length. *)
Theorem modes_are_session_kinds p :
  plugin_reachable p →
  is_mode (currentMode p) ∧
  is_mode (nextMode p) ∧
  (state (timer p) = Idle →
   ∀ now,
     let o := start (settings p) now (currentMode p) (timer p) (window p) in
     state (timer_of o) = currentMode p ∧
     remainingTime (timer_of o) = fresh_seconds (settings p) (currentMode p) ∧
     is_Some (configured_minutes (settings p) (currentMode p))).
Proof.
  intros Hr. destruct (plugin_reachable_modes p Hr) as [Hc Hn].
  split; [done|]. split; [done|].
  intros Hs now. cbn zeta. rewrite start_mode by done. simpl.
  destruct (reachable_inv _ _ (plugin_reachable_engine p Hr))
    as [_ _ _ _ Hz].
  destruct (Hz Hs) as [-> _]. rewrite bool_decide_eq_true_2 by done.
  split; [done|]. split; [done|].
  destruct Hc as [-> | [-> | ->]]; simpl; eauto.
Qed.

Lemma modes_are_session_kinds_witness :
  let p := foldl plugin_step (new_PomodoroPlugin DEFAULT_SETTINGS)
             [PauseResumeClick 0; IntervalFires 1%positive 1500000;
              PieButtonClick] in
  is_mode (currentMode p) ∧ is_mode (nextMode p).
Proof.
  destruct (modes_are_session_kinds
    (plugin_step (plugin_step (plugin_step
       (new_PomodoroPlugin DEFAULT_SETTINGS) (PauseResumeClick 0))
       (IntervalFires 1%positive 1500000)) PieButtonClick)) as (Hc & Hn & _).
  - do 3 apply plugin_event. apply plugin_loaded.
  - split; [exact Hc|exact Hn].
Defined.

Lemma on_timer_quiet now c p :
  (∀ h now', c ≠ call_fire h now') →
  on_timer now (run_call c) p =
  set_engine (timer_of (run_call c (timer p) (window p)))
             (window_of (run_call c (timer p) (window p))) p.
Proof.
  intros Hc. destruct (on_timer_call now c p) as [-> | [_ (h & now' & ->)]];
    [done|]. by destruct (Hc h now').
Qed.

Lemma count_on_timer now c p :
  completedPomodoros (on_timer now (run_call c) p) = completedPomodoros p ∨
  (completedPomodoros (on_timer now (run_call c) p) = completedPomodoros p + 1 ∧
   currentMode p = Work ∧
   isSessionComplete (on_timer now (run_call c) p) = true ∧
   ∃ h now', c = call_fire h now').
Proof.
  destruct (on_timer_call now c p) as [-> | [-> Hc]]; [by left|].
  rewrite plugin_onTimerComplete_spec. simpl.
  destruct (bool_decide_reflect (currentMode p = Work)); [by right|by left].
Qed.

(** X9: the count of completed pomodoros is never negative and never goes
    down.  An event leaves it unchanged or adds exactly one, and it adds one
    only when it is an interval firing that completes a session while
    [currentMode] is [Work]; clicks, resets, settings changes and timeouts
    never change it. *)
Theorem count_changes_only_on_completion p e :
  plugin_reachable p →
  0 ≤ completedPomodoros p ∧
  (completedPomodoros (plugin_step p e) = completedPomodoros p ∨
   (completedPomodoros (plugin_step p e) = completedPomodoros p + 1 ∧
    currentMode p = Work ∧
    isSessionComplete (plugin_step p e) = true ∧
    ∃ h now, e = IntervalFires h now)).
Proof.
  intros Hr. split.
  { rewrite (plugin_reachable_counts p Hr). unfold focus_completions. lia. }
  assert (∀ q, completedPomodoros (acknowledgeSessionComplete q) =
               completedPomodoros q) as Hack.
  { intros q. unfold acknowledgeSessionComplete. simpl. by destruct (negb _). }
  destruct e as [now| | | |cfg|h now|i now]; simpl.
  - left. unfold handlePauseResumeClick.
    destruct (isSessionComplete p); [apply Hack|].
    destruct (_ || _); [destruct (bool_decide _)|].
    + by rewrite (on_timer_quiet now (call_resume (settings p) now)).
    + by rewrite (on_timer_quiet now call_pause).
    + by rewrite (on_timer_quiet now
                    (call_start (settings p) now (currentMode p))).
  - left. unfold handleResetClick. simpl.
    by rewrite (on_timer_quiet 0 call_reset).
  - left. unfold handleCycleModeClick. destruct (_ || _); [done|].
    destruct (isSessionComplete p); [apply Hack|].
    by destruct (currentMode p).
  - left. unfold pieButton_onclick.
    destruct (isSessionComplete p); [apply Hack|done].
  - by left.
  - destruct (count_on_timer now (call_fire h now) p)
      as [Heq | (Heq & Hw & Hf & _)]; [by left|].
    right. repeat split; try done. eauto.
  - left. unfold fire_timeout. destruct (timeouts p !! i) as [[due k]|]; [|done].
    destruct (bool_decide (due ≤ now)); [|done].
    destruct k; simpl.
    + destruct (isSessionComplete p); [|done].
      by rewrite (on_timer_quiet now
                    (call_start (settings p) now (nextMode p))
                    (set_currentMode (nextMode p)
                       (set_timeouts (delete i (timeouts p)) p))).
    + apply (Hack (set_timeouts (delete i (timeouts p)) p)).
Qed.

Lemma count_changes_only_on_completion_witness :
  let p := plugin_step (new_PomodoroPlugin DEFAULT_SETTINGS)
             (PauseResumeClick 0) in
  completedPomodoros (plugin_step p (IntervalFires 1%positive 1500000)) =
  completedPomodoros p + 1.
Proof.
  destruct (count_changes_only_on_completion
              (plugin_step (new_PomodoroPlugin DEFAULT_SETTINGS)
                           (PauseResumeClick 0))
              (IntervalFires 1%positive 1500000)
              (plugin_event _ _ (plugin_loaded DEFAULT_SETTINGS)))
    as [_ [Hsame | [Hplus _]]].
  - vm_compute in Hsame. discriminate.
  - exact Hplus.
Defined.



(** With the engine [Idle] and no completion pending, only the time button
    starts the engine: every other event leaves the engine, the window, the
    flag and the count as they are. *)
Lemma idle_until_time_button p e :
  plugin_reachable p →
  state (timer p) = Idle →
  isSessionComplete p = false →
  (∀ now, e ≠ PauseResumeClick now) →
  timer (plugin_step p e) = timer p ∧
  window (plugin_step p e) = window p ∧
  isSessionComplete (plugin_step p e) = false ∧
  completedPomodoros (plugin_step p e) = completedPomodoros p.
Proof.
  intros Hr Hs Hf He.
  destruct (reachable_inv _ _ (plugin_reachable_engine p Hr))
    as [Htg Hid Hl _ Hz].
  assert (intervalId (timer p) = None) as Hnone.
  { destruct (intervalId (timer p)) as [h|] eqn:E; [|done].
    assert (is_mode (state (timer p))) as Hm by (apply Hid; eauto).
    rewrite Hs in Hm. by destruct Hm as [|[|]]. }
  assert (targetTime (timer p) = None) as Htnone.
  { destruct (targetTime (timer p)) as [x|] eqn:E; [|done].
    assert (is_mode (state (timer p))) as Hm by (apply Htg; eauto).
    rewrite Hs in Hm. by destruct Hm as [|[|]]. }
  destruct (Hz Hs) as [Hrem Htot].
  assert (live (window p) = ∅) as Hempty by (by rewrite Hl, Hnone).
  destruct e as [now| | | |cfg|h now|i now]; simpl.
  - by destruct (He now).
  - unfold handleResetClick. rewrite (on_timer_quiet 0 call_reset) by done.
    cbn [run_call].
    destruct (reset_stop (timer p) (window p)) as (-> & -> & _).
    rewrite stop_spec. unfold timer_of, window_of. simpl.
    rewrite Hnone. split; [|split; [|done]].
    + destruct (timer p); simpl in *. by subst.
    + destruct (window p) as [l n]; simpl in *. f_equal. set_solver.
  - unfold handleCycleModeClick, getState, isRunning. rewrite Hs, Hf.
    rewrite (bool_decide_eq_false_2 (Idle ≠ Idle)) by (intros H; by apply H).
    simpl. by destruct (currentMode p).
  - unfold pieButton_onclick. by rewrite Hf.
  - done.
  - unfold plugin_tick, on_timer.
    rewrite fire_dead by (rewrite Hempty; set_solver). done.
  - unfold fire_timeout. destruct (timeouts p !! i) as [[due k]|]; [|done].
    destruct (bool_decide (due ≤ now)); [|done].
    destruct k; simpl.
    + by rewrite Hf.
    + unfold acknowledgeSessionComplete, isRunning. simpl. rewrite Hs. done.
Qed.

Lemma idle_until_time_button_steps p es :
  plugin_reachable p →
  state (timer p) = Idle →
  isSessionComplete p = false →
  Forall (λ e, ∀ now, e ≠ PauseResumeClick now) es →
  timer (foldl plugin_step p es) = timer p ∧
  window (foldl plugin_step p es) = window p ∧
  isSessionComplete (foldl plugin_step p es) = false ∧
  completedPomodoros (foldl plugin_step p es) = completedPomodoros p.
Proof.
  intros Hr Hs Hf Hes. revert p Hr Hs Hf.
  induction Hes as [|e es He _ IH]; intros p Hr Hs Hf; [done|].
  destruct (idle_until_time_button p e Hr Hs Hf He) as (Ht & Hw & Hf' & Hc).
  cbn [foldl].
  destruct (IH (plugin_step p e)) as (Ht2 & Hw2 & Hf2 & Hc2).
  - by apply plugin_event.
  - by rewrite Ht.
  - done.
  - rewrite Ht2, Hw2, Hc2. done.
Qed.

(** X11: a reset click.  It leaves the engine [Idle] with no time and no
    live interval, clears a pending completion, and keeps [currentMode],
    [nextMode], the count and the pending timeouts.  The timeouts are not
    cancelled, but until the time button is clicked again nothing starts
    the engine: through any later pending timeouts, interval firings, mode
    and pie clicks, settings changes and further reset clicks the engine
    and the window stay as the reset left them, no completion is flagged
    and the count is kept. *)
Theorem reset_click_stops_everything p es :
  plugin_reachable p →
  Forall (λ e, ∀ now, e ≠ PauseResumeClick now) es →
  let p' := handleResetClick p in
  let q := foldl plugin_step p' es in
  state (timer p') = Idle ∧
  remainingTime (timer p') = 0 ∧
  totalTime (timer p') = 0 ∧
  live (window p') = ∅ ∧
  isSessionComplete p' = false ∧
  currentMode p' = currentMode p ∧
  nextMode p' = nextMode p ∧
  completedPomodoros p' = completedPomodoros p ∧
  timeouts p' = timeouts p ∧
  timer q = timer p' ∧
  window q = window p' ∧
  state (timer q) = Idle ∧
  live (window q) = ∅ ∧
  isSessionComplete q = false ∧
  completedPomodoros q = completedPomodoros p.
Proof.
  intros Hr Hes. cbn zeta.
  assert (plugin_reachable (handleResetClick p)) as Hr'
    by apply (plugin_event p ResetClick Hr).
  destruct (reachable_inv _ _ (plugin_reachable_engine p Hr))
    as [_ _ Hl _ _].
  assert (state (timer (handleResetClick p)) = Idle ∧
          remainingTime (timer (handleResetClick p)) = 0 ∧
          totalTime (timer (handleResetClick p)) = 0 ∧
          live (window (handleResetClick p)) = ∅ ∧
          isSessionComplete (handleResetClick p) = false ∧
          currentMode (handleResetClick p) = currentMode p ∧
          nextMode (handleResetClick p) = nextMode p ∧
          completedPomodoros (handleResetClick p) = completedPomodoros p ∧
          timeouts (handleResetClick p) = timeouts p)
    as (Hs & Hrem & Htot & Hlive & Hf & Hc & Hn & Hcount & Hto).
  { unfold handleResetClick. rewrite (on_timer_quiet 0 call_reset) by done.
    cbn [run_call].
    destruct (reset_stop (timer p) (window p)) as (-> & -> & _).
    rewrite stop_spec. unfold timer_of, window_of. simpl.
    assert (live (window p) ∖ handles (intervalId (timer p)) = ∅) as ->
      by (rewrite Hl; set_solver).
    done. }
  destruct (idle_until_time_button_steps (handleResetClick p) es
              Hr' Hs Hf Hes) as (Ht & Hw & Hf' & Hc').
  do 9 (split; [done|]). split; [done|]. split; [done|].
  rewrite Ht, Hw, Hc', Hcount. done.
Qed.

Lemma reset_click_stops_everything_witness :
  let p := foldl plugin_step (new_PomodoroPlugin auto_break_settings)
             [PauseResumeClick 0; IntervalFires 1%positive 1500000] in
  let q := foldl plugin_step (handleResetClick p)
             [TimeoutFires 0 1501000; CycleModeClick;
              IntervalFires 1%positive 1502000; TimeoutFires 0 1510000] in
  timeouts (handleResetClick p) =
    [(1501000, AutoStart); (1510000, AcknowledgeLater)] ∧
  state (timer q) = Idle ∧ isSessionComplete q = false.
Proof.
  destruct (reset_click_stops_everything
    (plugin_step (plugin_step (new_PomodoroPlugin auto_break_settings)
                              (PauseResumeClick 0))
                 (IntervalFires 1%positive 1500000))
    [TimeoutFires 0 1501000; CycleModeClick;
     IntervalFires 1%positive 1502000; TimeoutFires 0 1510000])
    as (_ & _ & _ & _ & _ & _ & _ & _ & Hto & _ & _ & Hs & _ & Hf & _).
  - do 2 apply plugin_event. apply plugin_loaded.
  - repeat constructor; discriminate.
  - split; [reflexivity|]. split; [exact Hs|exact Hf].
Defined.

Lemma elem_of_delete_other {A} (l : list A) (i : nat) (x y : A) :
  l !! i = Some y → x ∈ l → x ≠ y → x ∈ delete i l.
Proof.
  intros Hi Hx Hne. apply list_elem_of_lookup in Hx as [j Hj].
  destruct (decide (j < i)%nat) as [Hlt|Hge].
  - apply list_elem_of_lookup. exists j. by rewrite list_lookup_delete_lt.
  - assert (j ≠ i) by (intros ->; congruence).
    apply list_elem_of_lookup. exists (pred j).
    rewrite list_lookup_delete_ge by lia.
    replace (S (pred j)) with j by lia. done.
Qed.

Lemma acknowledgement_pending_on_timer now c p :
  acknowledgement_pending p →
  acknowledgement_pending (on_timer now (run_call c) p).
Proof.
  intros Hp. destruct (on_timer_call now c p) as [-> | [-> _]]; [done|].
  intros _. rewrite plugin_onTimerComplete_spec. simpl.
  exists (now + 10000). rewrite !elem_of_app. right. right.
  apply list_elem_of_singleton. done.
Qed.

Lemma acknowledgement_pending_cleared p :
  isSessionComplete p = false → acknowledgement_pending p.
Proof. intros Hf Ht. congruence. Qed.

Lemma acknowledge_clears p :
  isSessionComplete (acknowledgeSessionComplete p) = false.
Proof. unfold acknowledgeSessionComplete. simpl. by destruct (negb _). Qed.

Lemma acknowledgement_pending_step p e :
  acknowledgement_pending p → acknowledgement_pending (plugin_step p e).
Proof.
  intros Hp. destruct e as [now| | | |cfg|h now|i now]; simpl.
  - unfold handlePauseResumeClick.
    destruct (isSessionComplete p) eqn:Hf.
    { apply acknowledgement_pending_cleared, acknowledge_clears. }
    destruct (_ || _); [destruct (bool_decide _)|].
    + by apply (acknowledgement_pending_on_timer now
                  (call_resume (settings p) now)).
    + by apply (acknowledgement_pending_on_timer now call_pause).
    + by apply (acknowledgement_pending_on_timer now
                  (call_start (settings p) now (currentMode p))).
  - by apply acknowledgement_pending_cleared.
  - unfold handleCycleModeClick. destruct (_ || _); [done|].
    destruct (isSessionComplete p) eqn:Hf.
    { apply acknowledgement_pending_cleared, acknowledge_clears. }
    apply acknowledgement_pending_cleared. by destruct (currentMode p).
  - unfold pieButton_onclick. destruct (isSessionComplete p) eqn:Hf.
    + apply acknowledgement_pending_cleared, acknowledge_clears.
    + by apply acknowledgement_pending_cleared.
  - done.
  - by apply (acknowledgement_pending_on_timer now (call_fire h now)).
  - unfold fire_timeout.
    destruct (timeouts p !! i) as [[due k]|] eqn:Hi; [|done].
    destruct (bool_decide (due ≤ now)); [|done].
    destruct k; simpl.
    + destruct (isSessionComplete p) eqn:Hf.
      * apply (acknowledgement_pending_on_timer now
                 (call_start (settings p) now (nextMode p))
                 (set_currentMode (nextMode p)
                    (set_timeouts (delete i (timeouts p)) p))).
        intros _. simpl. destruct (Hp Hf) as [due' Hin].
        exists due'. by apply (elem_of_delete_other _ i _ (due, AutoStart)).
      * apply acknowledgement_pending_cleared. done.
    + apply acknowledgement_pending_cleared.
      apply (acknowledge_clears (set_timeouts (delete i (timeouts p)) p)).
Qed.

(** X12: a pending completion cannot last forever.  In every reachable plugin
    state with [isSessionComplete] set, an acknowledgement is among the
    pending timeouts, and when any pending acknowledgement fires the
    completion is cleared. *)
Theorem pending_completion_is_acknowledged p :
  plugin_reachable p →
  isSessionComplete p = true →
  ∃ i due,
    timeouts p !! i = Some (due, AcknowledgeLater) ∧
    ∀ now, due ≤ now → isSessionComplete (fire_timeout i now p) = false.
Proof.
  intros Hr Hf.
  assert (acknowledgement_pending p) as Hp.
  { clear Hf. induction Hr as [cfg|p e _ IH].
    - by apply acknowledgement_pending_cleared.
    - by apply acknowledgement_pending_step. }
  destruct (Hp Hf) as [due Hin].
  apply list_elem_of_lookup in Hin as [i Hi].
  exists i, due. split; [done|].
  intros now Hdue. unfold fire_timeout. rewrite Hi.
  rewrite bool_decide_eq_true_2 by done. simpl.
  apply (acknowledge_clears (set_timeouts (delete i (timeouts p)) p)).
Qed.

Lemma pending_completion_is_acknowledged_witness :
  let p := foldl plugin_step (new_PomodoroPlugin DEFAULT_SETTINGS)
             [PauseResumeClick 0; IntervalFires 1%positive 1500000] in
  isSessionComplete p = true ∧
  ∃ i due, timeouts p !! i = Some (due, AcknowledgeLater) ∧
    ∀ now, due ≤ now → isSessionComplete (fire_timeout i now p) = false.
Proof.
  split; [reflexivity|].
  apply (pending_completion_is_acknowledged
    (plugin_step (plugin_step (new_PomodoroPlugin DEFAULT_SETTINGS)
                              (PauseResumeClick 0))
                 (IntervalFires 1%positive 1500000))).
  - do 2 apply plugin_event. apply plugin_loaded.
  - reflexivity.
Defined.

Lemma fire_auto_start i due now p :
  timeouts p !! i = Some (due, AutoStart) → due ≤ now →
  isSessionComplete p = true →
  fire_timeout i now p =
  set_engine
    (timer_of (start (settings p) now (nextMode p) (timer p) (window p)))
    (window_of (start (settings p) now (nextMode p) (timer p) (window p)))
    (set_currentMode (nextMode p) (set_timeouts (delete i (timeouts p)) p)).
Proof.
  intros Hi Hdue Hf. unfold fire_timeout. rewrite Hi.
  rewrite bool_decide_eq_true_2 by done. cbn [run_timeout]. simpl.
  rewrite Hf.
  by rewrite (on_timer_quiet now (call_start (settings p) now (nextMode p))
                (set_currentMode (nextMode p)
                   (set_timeouts (delete i (timeouts p)) p))).
Qed.

Lemma fire_acknowledge i due now p :
  timeouts p !! i = Some (due, AcknowledgeLater) → due ≤ now →
  fire_timeout i now p =
  acknowledgeSessionComplete (set_timeouts (delete i (timeouts p)) p).
Proof.
  intros Hi Hdue. unfold fire_timeout. rewrite Hi.
  by rewrite bool_decide_eq_true_2.
Qed.

Lemma acknowledge_busy p :
  is_mode (state (timer p)) →
  acknowledgeSessionComplete p = set_isSessionComplete false p.
Proof.
  intros Hm. unfold acknowledgeSessionComplete.
  assert (isRunning (timer (set_isSessionComplete false p)) = true) as ->
    by (by apply isRunning_is_mode).
  done.
Qed.

(** Interval firings before the deadline only refresh the engine's
    [remainingTime]; the sequencer is left as it is. *)
Lemma plugin_ticks_before_target h ts p target :
  targetTime (timer p) = Some target → target ≠ 0 → h ∈ live (window p) →
  Forall (λ x, x < target) ts →
  foldl plugin_step p (IntervalFires h <$> ts) =
  set_engine
    (match last ts with
     | Some x => set_remainingTime (ceil_div (target - x) 1000) (timer p)
     | None => timer p
     end) (window p) p.
Proof.
  intros Htg Hnz Hh Hts. revert p Htg Hh.
  induction Hts as [|x ts Hx Hts IH]; intros p Htg Hh.
  { by destruct p. }
  cbn [fmap list_fmap foldl plugin_step].
  assert (plugin_tick h x p =
          set_engine (set_remainingTime (ceil_div (target - x) 1000) (timer p))
                     (window p) p) as ->.
  { unfold plugin_tick, on_timer. rewrite fire_live by done.
    rewrite (interval_callback_going _ _ _ target)
      by (try apply ceil_div_pos; done || lia).
    done. }
  rewrite IH by done. simpl.
  destruct ts as [|y ts]; [done|].
  rewrite last_cons_cons.
  destruct (last (y :: ts)) eqn:Hlast; [done|].
  by apply last_None in Hlast.
Qed.

(** X13: a Work session that completes in step with the sequencer (the
    engine runs [Work] and [currentMode] is [Work] too) with
    [autoStartBreaks] set and a break of positive length, and is then left
    alone.  The auto-start, 1000 ms later, starts the break
    with the completion still flagged; the ticks of the break only count it
    down; when the acknowledgement (10000 ms after the completion) fires
    during the break it clears the flag and, the engine being busy, leaves
    [currentMode] and the running break as they are.  Of the timeouts only
    those that were pending before the completion are left. *)
Theorem break_runs_after_both_timers h now target p now1 ts now2 d :
  plugin_reachable p →
  h ∈ live (window p) →
  targetTime (timer p) = Some target →
  target ≠ 0 →
  target ≤ now →
  state (timer p) = Work →
  currentMode p = Work →
  autoStartBreaks (settings p) = true →
  configured_minutes (settings p) (nextMode (plugin_tick h now p)) = Some d →
  0 < d →
  0 ≤ now →
  now + 1000 ≤ now1 →
  Forall (λ x, x < now1 + d * 60000) ts →
  now + 10000 ≤ now2 →
  let i := length (timeouts p) in
  let p1 := plugin_tick h now p in
  let p2 := fire_timeout i now1 p1 in
  let p2' := foldl plugin_step p2
               (IntervalFires (nextHandle (window p)) <$> ts) in
  let p3 := fire_timeout i now2 p2' in
  state_changes (calls_of (fire h now (timer p) (window p))) = [Work] ∧
  (nextMode p1 = ShortBreak ∨ nextMode p1 = LongBreak) ∧
  isSessionComplete p2 = true ∧
  currentMode p2 = nextMode p1 ∧
  state (timer p2) = nextMode p1 ∧
  remainingTime (timer p2) = d * 60 ∧
  timeouts p2 = timeouts p ++ [(now + 10000, AcknowledgeLater)] ∧
  state (timer p2') = nextMode p1 ∧
  0 < remainingTime (timer p2') ∧
  isSessionComplete p2' = true ∧
  isSessionComplete p3 = false ∧
  currentMode p3 = nextMode p1 ∧
  timer p3 = timer p2' ∧
  window p3 = window p2' ∧
  live (window p3) = {[ nextHandle (window p) ]} ∧
  timeouts p3 = timeouts p.
Proof.
  intros Hr Hh Htg Hnz Hle Hst Hw Ha Hd Hdpos Hnow Hd1 Hts Hd2. cbn zeta.
  pose proof (plugin_reachable_engine p Hr) as Hre.
  destruct (reachable_inv _ _ Hre) as [_ _ Hl _ _].
  set (p1 := plugin_tick h now p) in *.
  assert (isSessionComplete p1 = true ∧
          (nextMode p1 = ShortBreak ∨ nextMode p1 = LongBreak) ∧
          settings p1 = settings p ∧
          state (timer p1) = Idle ∧ remainingTime (timer p1) = 0 ∧
          live (window p1) = ∅ ∧
          nextHandle (window p1) = nextHandle (window p) ∧
          intervalId (timer p1) = None ∧
          timeouts p1 =
            timeouts p ++
            [(now + 1000, AutoStart); (now + 10000, AcknowledgeLater)])
    as (Hf1 & Hb1 & Hset1 & Hs1 & Hrem1 & Hl1 & Hnh1 & Hid1 & Hto1).
  { subst p1. rewrite (plugin_tick_completes h now target)
      by (done || by apply ceil_div_nonpos; lia).
    rewrite plugin_onTimerComplete_spec, stop_spec.
    unfold timer_of, window_of. simpl.
    rewrite !bool_decide_eq_true_2 by done. rewrite Ha. simpl.
    assert (live (window p) ∖ handles (intervalId (timer p)) = ∅) as ->
      by (rewrite Hl; set_solver).
    destruct (rem_is_zero _ _); repeat split; auto. }
  assert (is_mode (nextMode p1)) as Hm1
    by (unfold is_mode; destruct Hb1; auto).
  assert (fresh_seconds (settings p) (nextMode p1) = d * 60) as Hfresh.
  { destruct Hb1 as [Hb|Hb]; rewrite Hb in Hd |- *; simpl in *;
      by simplify_eq. }
  set (i := length (timeouts p)).
  set (p2 := fire_timeout i now1 p1).
  assert (p2 = set_engine
            (timer_of (start (settings p1) now1 (nextMode p1)
                             (timer p1) (window p1)))
            (window_of (start (settings p1) now1 (nextMode p1)
                              (timer p1) (window p1)))
            (set_currentMode (nextMode p1)
               (set_timeouts (delete i (timeouts p1)) p1))) as Hp2.
  { subst p2. apply (fire_auto_start i (now + 1000)); [|lia|done].
    rewrite Hto1. subst i. by rewrite list_lookup_middle. }
  assert (delete i (timeouts p1) =
          timeouts p ++ [(now + 10000, AcknowledgeLater)]) as Hdel.
  { rewrite Hto1. subst i.
    by rewrite (delete_middle (timeouts p) _ (now + 1000, AutoStart)). }
  assert (isSessionComplete p2 = true ∧ currentMode p2 = nextMode p1 ∧
          state (timer p2) = nextMode p1 ∧
          remainingTime (timer p2) = d * 60 ∧
          targetTime (timer p2) = Some (now1 + d * 60 * 1000) ∧
          window p2 = {| live := {[ nextHandle (window p) ]};
                         nextHandle := Pos.succ (nextHandle (window p)) |} ∧
          timeouts p2 = timeouts p ++ [(now + 10000, AcknowledgeLater)])
    as (Hf2 & Hc2 & Hs2 & Hrem2 & Htg2 & Hw2 & Hto2).
  { rewrite Hp2. simpl. rewrite Hdel, start_mode by done.
    unfold timer_of, window_of. simpl.
    rewrite Hrem1, Hset1, Hfresh, Hl1, Hnh1, Hid1. simpl.
    repeat split; try done. f_equal. set_solver. }
  set (p2' := foldl plugin_step p2
                (IntervalFires (nextHandle (window p)) <$> ts)).
  assert (p2' = set_engine
            (match last ts with
             | Some x =>
               set_remainingTime
                 (ceil_div (now1 + d * 60 * 1000 - x) 1000) (timer p2)
             | None => timer p2
             end) (window p2) p2) as Hp2'.
  { subst p2'. apply plugin_ticks_before_target; [done|lia| |].
    - rewrite Hw2. simpl. set_solver.
    - eapply Forall_impl; [exact Hts|]. simpl. lia. }
  assert (state (timer p2') = nextMode p1 ∧ 0 < remainingTime (timer p2'))
    as [Hs2' Hrem2'].
  { rewrite Hp2'. simpl. destruct (last ts) as [x|] eqn:Hlast; simpl.
    - split; [done|]. apply ceil_div_pos.
      apply last_Some_elem_of in Hlast.
      rewrite Forall_forall in Hts. apply Hts in Hlast. lia.
    - split; [done|lia]. }
  assert (isSessionComplete p2' = true ∧ currentMode p2' = nextMode p1 ∧
          window p2' = window p2 ∧ timeouts p2' = timeouts p2)
    as (Hf2' & Hc2' & Hw2' & Hto2') by (by rewrite Hp2').
  split.
  { rewrite fire_live by done.
    rewrite (interval_callback_done _ _ _ target)
      by (done || by apply ceil_div_nonpos; lia).
    unfold calls_of. simpl. by rewrite Hst. }
  split; [done|]. do 5 (split; [done|]). do 3 (split; [done|]).
  rewrite (fire_acknowledge i (now + 10000) now2 p2'); [|by rewrite Hto2', Hto2; subst i; apply list_lookup_middle|lia].
  rewrite acknowledge_busy by (simpl; by rewrite Hs2').
  simpl. rewrite Hto2', Hto2, Hw2', Hw2. simpl.
  do 4 (split; [done|]). split; [done|].
  subst i. by rewrite (delete_middle (timeouts p) [] _), app_nil_r.
Qed.

Lemma break_runs_after_both_timers_witness :
  let p := handlePauseResumeClick 1000
             (new_PomodoroPlugin auto_break_settings) in
  let p3 := fire_timeout 0 1511000
              (foldl plugin_step
                 (fire_timeout 0 1502000 (plugin_tick 1%positive 1501000 p))
                 (IntervalFires 2%positive <$> [1503000; 1504000])) in
  isSessionComplete p3 = false ∧ currentMode p3 = ShortBreak ∧
  state (timer p3) = ShortBreak ∧ timeouts p3 = [].
Proof.
  destruct (break_runs_after_both_timers 1%positive 1501000 1501000
              (plugin_step (new_PomodoroPlugin auto_break_settings)
                           (PauseResumeClick 1000))
              1502000 [1503000; 1504000] 1511000 5)
    as (_ & _ & _ & _ & _ & _ & _ & Hs & _ & _ & Hf & Hc & Ht & _ & _ & Hto).
  - apply plugin_event, plugin_loaded.
  - simpl. set_solver.
  - reflexivity.
  - lia.
  - lia.
  - reflexivity.
  - reflexivity.
  - reflexivity.
  - reflexivity.
  - lia.
  - lia.
  - lia.
  - repeat constructor; lia.
  - lia.
  - split; [exact Hf|]. split; [exact Hc|].
    split; [exact (eq_trans (f_equal state Ht) Hs)|exact Hto].
Defined.

(** ** Properties of the view *)

Lemma pad_length k c s : String.length (pad k c s) = (k + String.length s)%nat.
Proof. induction k as [|k IH]; simpl; [done|]. by rewrite IH. Qed.

Lemma padStart_length n c s :
  String.length (padStart n c s) = (n `max` String.length s)%nat.
Proof. unfold padStart. rewrite pad_length. lia. Qed.

Lemma string_app_length (a b : string) :
  String.length (a +:+ b) = (String.length a + String.length b)%nat.
Proof. induction a as [|c a IH]; simpl; [done|]. by rewrite IH. Qed.

Lemma string_app_inj (a1 a2 b1 b2 : string) :
  String.length a1 = String.length a2 →
  a1 +:+ b1 = a2 +:+ b2 → a1 = a2 ∧ b1 = b2.
Proof.
  revert a2. induction a1 as [|c a1 IH]; intros [|c' a2] Hlen Heq;
    simpl in *; try discriminate; [done|].
  injection Heq as -> Heq. injection Hlen as Hlen.
  destruct (IH a2 Hlen Heq) as [-> ->]. done.
Qed.

(** The decimal numeral of a positive number starts with a digit that is
    not zero. *)
Lemma pretty_N_go_head x s :
  (0 < x)%N → ∃ c s', pretty_N_go x s = String c s' ∧ c ≠ "0"%char.
Proof.
  revert s. induction (N.lt_wf_0 x) as [x _ IH]; intros s Hx.
  rewrite pretty_N_go_step by done.
  destruct (decide (x < 10)%N) as [Hlt|Hge].
  - rewrite N.div_small by done. rewrite pretty_N_go_0.
    rewrite N.mod_small by done. eexists _, _. split; [done|].
    assert (x = 1 ∨ x = 2 ∨ x = 3 ∨ x = 4 ∨ x = 5 ∨ x = 6
            ∨ x = 7 ∨ x = 8 ∨ x = 9)%N as Hcases by lia.
    destruct Hcases as [->|[->|[->|[->|[->|[->|[->|[->| ->]]]]]]]]; done.
  - apply IH.
    + apply N.div_lt; lia.
    + apply N.div_str_pos. lia.
Qed.

Lemma toString_head z :
  0 ≤ z → z = 0 ∧ toString z = "0" ∨
          ∃ c s', toString z = String c s' ∧ c ≠ "0"%char.
Proof.
  intros Hz. destruct z as [|x|x]; [by left| |lia]. right.
  unfold toString, pretty, pretty_Z, pretty, pretty_positive, pretty, pretty_N.
  rewrite decide_False by done. by apply pretty_N_go_head.
Qed.

Lemma toString_inj z1 z2 : toString z1 = toString z2 → z1 = z2.
Proof. apply pretty_Z_inj. Qed.

(** Padding to two characters keeps distinct numbers apart. *)
Lemma padStart_toString_inj z1 z2 :
  0 ≤ z1 → 0 ≤ z2 →
  padStart 2 "0" (toString z1) = padStart 2 "0" (toString z2) → z1 = z2.
Proof.
  intros H1 H2 Heq.
  assert (∀ z, 0 ≤ z →
    (padStart 2 "0" (toString z) = toString z ∧
     (2 ≤ String.length (toString z))%nat) ∨
    (∃ c, toString z = String c "" ∧
          padStart 2 "0" (toString z) = String "0" (String c ""))) as Hshape.
  { intros z Hz. unfold padStart.
    destruct (toString_head z Hz) as [[-> ->] | (c & s' & -> & Hc)].
    - right. by exists "0"%char.
    - destruct s' as [|c' s'']; [right; by exists c|left].
      simpl. split; [done|lia]. }
  destruct (Hshape z1 H1) as [[E1 L1] | (c1 & E1 & P1)],
           (Hshape z2 H2) as [[E2 L2] | (c2 & E2 & P2)].
  - apply toString_inj. congruence.
  - exfalso. rewrite E1, P2 in Heq.
    destruct (toString_head z1 H1) as [[_ Hz] | (c & s' & Hc & Hne)].
    + rewrite Hz in L1. simpl in L1. lia.
    + rewrite Hc in Heq. by injection Heq as ->.
  - exfalso. rewrite P1, E2 in Heq.
    destruct (toString_head z2 H2) as [[_ Hz] | (c & s' & Hc & Hne)].
    + rewrite Hz in L2. simpl in L2. lia.
    + rewrite Hc in Heq. by injection Heq as <-.
  - apply toString_inj. rewrite P1, P2 in Heq. injection Heq as ->.
    congruence.
Qed.

(** A number below one hundred has at most two digits. *)
Lemma toString_short z :
  0 ≤ z < 100 → (String.length (toString z) ≤ 2)%nat.
Proof.
  intros Hz. assert (∃ n, (n < 100)%nat ∧ z = Z.of_nat n) as (n & Hn & ->).
  { exists (Z.to_nat z). lia. }
  clear Hz. do 100 (destruct n as [|n]; [vm_compute; lia|]). lia.
Qed.

(** X14: the time shown for a session.  While the engine is not [Idle],
    [updateUI] shows a non-negative [remainingTime] as minutes, a colon and
    seconds: the seconds always take two characters, the minutes at least
    two and exactly two below one hundred minutes, and different remaining
    times are shown differently.  [totalTime] plays no part in the text. *)
Theorem time_text_format p r tot :
  state (timer p) ≠ Idle →
  0 ≤ r →
  let mm := padStart 2 "0"%char (toString (r `div` 60)) in
  let ss := padStart 2 "0"%char (toString (r `rem` 60)) in
  panelTimeText (updateUI p r tot) = mm +:+ ":" +:+ ss ∧
  String.length ss = 2%nat ∧
  (2 ≤ String.length mm)%nat ∧
  (r < 6000 → String.length (panelTimeText (updateUI p r tot)) = 5%nat) ∧
  (∀ r' tot', 0 ≤ r' →
     panelTimeText (updateUI p r' tot') = panelTimeText (updateUI p r tot) →
     r' = r).
Proof.
  intros Hs Hr. cbn zeta.
  assert (∀ x y, panelTimeText (updateUI p x y) =
            padStart 2 "0"%char (toString (x `div` 60)) +:+ ":" +:+
            padStart 2 "0"%char (toString (x `rem` 60))) as Htext.
  { intros x y. unfold updateUI, getState.
    rewrite (bool_decide_eq_false_2 (state (timer p) = Idle)) by done.
    done. }
  assert (∀ x, 0 ≤ x →
            String.length (padStart 2 "0"%char (toString (x `rem` 60))) = 2%nat)
    as Hsec.
  { intros x Hx. rewrite padStart_length.
    assert (0 ≤ x `rem` 60 < 60) by (apply Z.rem_bound_pos; lia).
    pose proof (toString_short (x `rem` 60) ltac:(lia)). lia. }
  rewrite Htext. split; [done|]. split; [by apply Hsec|].
  split; [rewrite padStart_length; lia|]. split.
  - intros Hlt. rewrite !string_app_length, Hsec by done.
    rewrite padStart_length.
    assert (0 ≤ r `div` 60 < 100)
      by (split; [apply Z.div_pos; lia|apply Z.div_lt_upper_bound; lia]).
    pose proof (toString_short (r `div` 60) ltac:(lia)). simpl. lia.
  - intros r' tot' Hr' Heq. rewrite Htext in Heq.
    assert (String.length (padStart 2 "0"%char (toString (r' `div` 60))) =
            String.length (padStart 2 "0"%char (toString (r `div` 60)))) as Hlen.
    { apply (f_equal String.length) in Heq.
      rewrite !string_app_length, !Hsec in Heq by done. lia. }
    apply string_app_inj in Heq as [Hm Hrest]; [|done].
    apply (string_app_inj ":" ":") in Hrest as [_ Hsecs]; [|done].
    apply padStart_toString_inj in Hm;
      [|apply Z.div_pos; lia|apply Z.div_pos; lia].
    apply padStart_toString_inj in Hsecs;
      [|apply Z.rem_nonneg; lia|apply Z.rem_nonneg; lia].
    rewrite (Z.quot_rem' r' 60), (Z.quot_rem' r 60).
    rewrite !Z.quot_div_nonneg by lia. congruence.
Qed.

Lemma time_text_format_witness :
  let p := handlePauseResumeClick 0 (new_PomodoroPlugin DEFAULT_SETTINGS) in
  panelTimeText (updateUI p 1499 1500) = "24:59" ∧
  String.length (panelTimeText (updateUI p 1499 1500)) = 5%nat.
Proof.
  split; [reflexivity|].
  apply (time_text_format
           (handlePauseResumeClick 0 (new_PomodoroPlugin DEFAULT_SETTINGS))
           1499 1500); [discriminate|lia|lia].
Defined.

(** X15: the mode label is shown enabled exactly when a click on it is
    honoured.  [updateUI] marks it [mode-enabled] when the engine is [Idle]
    and [mode-disabled] otherwise, whatever the tick values; and
    [handleCycleModeClick] answers with the reset notice exactly when the
    engine is not [Idle]. *)
Theorem mode_label_matches_switch p r tot :
  let v := updateUI p r tot in
  ("mode-enabled" ∈ panelModeClasses v ↔ state (timer p) = Idle) ∧
  ("mode-disabled" ∈ panelModeClasses v ↔ state (timer p) ≠ Idle) ∧
  (shown (handleCycleModeClick p) =
     shown p ++ [Notice "Reset the timer to switch modes"] ↔
   state (timer p) ≠ Idle).
Proof.
  cbn zeta.
  assert (panelModeClasses (updateUI p r tot) =
          [if bool_decide (currentMode p = Work)
           then "minidoro-work-mode" else "minidoro-break-mode";
           if bool_decide (state (timer p) = Idle)
           then "mode-enabled" else "mode-disabled"]) as ->.
  { unfold updateUI, getState, isRunning.
    destruct (bool_decide_reflect (state (timer p) = Idle)) as [Hs|Hs].
    - rewrite Hs. done.
    - done. }
  split; [|split].
  - destruct (bool_decide_reflect (state (timer p) = Idle));
      destruct (bool_decide (currentMode p = Work));
      rewrite !elem_of_cons, elem_of_nil; split; intros H;
      try done; try (destruct H as [H|[H|[]]]; discriminate); auto.
  - destruct (bool_decide_reflect (state (timer p) = Idle));
      destruct (bool_decide (currentMode p = Work));
      rewrite !elem_of_cons, elem_of_nil; split; intros H;
      try done; try (destruct H as [H|[H|[]]]; discriminate); auto.
  - unfold handleCycleModeClick, getState, isRunning.
    destruct (decide (state (timer p) = Idle)) as [Hidle|Hs].
    + rewrite Hidle. cbn [bool_decide decide_rel orb andb].
      rewrite (bool_decide_eq_false_2 (Idle ≠ Idle)) by (intros H; by apply H).
      cbn [orb andb]. split; [|done]. intros Heq. exfalso.
      destruct (isSessionComplete p).
      * rewrite acknowledge_idle in Heq by done. simpl in Heq.
        apply (f_equal length) in Heq. rewrite length_app in Heq.
        simpl in Heq. lia.
      * simpl in Heq. apply app_inj_tail in Heq as [_ Heq].
        unfold getModeText in Heq.
        destruct (currentMode p); simpl in Heq; discriminate.
    + rewrite (bool_decide_eq_true_2 (state (timer p) ≠ Idle)) by done.
      done.
Qed.

(** X16: an idle engine is shown with the configured length of the selected
    mode.  With the engine [Idle], [updateUI] ignores the two numbers it is
    given: it shows the minutes configured for [currentMode] followed by
    [:00], a full pie marked idle, and different configured lengths are
    shown differently. *)
Theorem idle_view_shows_configured_minutes p d r tot :
  state (timer p) = Idle →
  configured_minutes (settings p) (currentMode p) = Some d →
  updateUI p r tot = updateUI p 0 0 ∧
  panelTimeText (updateUI p r tot) = toString d +:+ ":00" ∧
  (progress (updateUI p r tot) == 1)%Q ∧
  "minidoro-progress-idle" ∈ pieClasses (updateUI p r tot) ∧
  (∀ cfg d',
     configured_minutes cfg (currentMode p) = Some d' →
     panelTimeText (updateUI (set_settings cfg p) r tot) =
       panelTimeText (updateUI p r tot) →
     d' = d).
Proof.
  intros Hs Hd.
  assert (∀ q x y, state (timer q) = Idle →
            updateUI q x y =
            {| pieClasses :=
                 [if bool_decide (currentMode q = Work)
                  then "minidoro-work-mode" else "minidoro-break-mode";
                  "minidoro-progress-idle"];
               panelModeClasses :=
                 [if bool_decide (currentMode q = Work)
                  then "minidoro-work-mode" else "minidoro-break-mode";
                  "mode-enabled"];
               progress := 1;
               sessionCompleteClass := isSessionComplete q;
               panelTimeText := getIdleTimeText q;
               panelModeText := getModeText q |}) as Hidle.
  { intros q x y Hq. unfold updateUI, getState, isRunning. rewrite Hq. done. }
  assert (∀ cfg d', configured_minutes cfg (currentMode p) = Some d' →
            getIdleTimeText (set_settings cfg p) = toString d' +:+ ":00")
    as Htext.
  { intros cfg d' Hd'. unfold getIdleTimeText. simpl.
    destruct (currentMode p); simpl in Hd' |- *; by simplify_eq. }
  assert (getIdleTimeText p = toString d +:+ ":00") as Hp.
  { unfold getIdleTimeText.
    destruct (currentMode p); simpl in Hd |- *; by simplify_eq. }
  rewrite !Hidle by done. simpl.
  split; [done|]. split; [done|]. split; [reflexivity|].
  split; [set_solver|].
  intros cfg d' Hd' Heq. rewrite Hidle in Heq by done. simpl in Heq.
  rewrite (Htext cfg d' Hd'), Hp in Heq.
  assert (String.length (toString d') = String.length (toString d)) as Hlen.
  { apply (f_equal String.length) in Heq.
    rewrite !string_app_length in Heq. lia. }
  apply string_app_inj in Heq as [Heq _]; [|done].
  by apply toString_inj.
Qed.

Lemma idle_view_shows_configured_minutes_witness :
  panelTimeText (updateUI (new_PomodoroPlugin DEFAULT_SETTINGS) 7 9) = "25:00".
Proof.
  destruct (idle_view_shows_configured_minutes
              (new_PomodoroPlugin DEFAULT_SETTINGS) 25 7 9 eq_refl eq_refl)
    as (_ & Htext & _).
  exact Htext.
Defined.

(** X17: saving the settings during a session blanks the display.
    [saveSettings] renders [updateUI(0, 0)] whatever the engine holds: while
    a session runs or is paused the panel then shows [00:00] and the pie is
    marked complete, although the engine keeps its state and the time that
    is left. *)
Theorem saveSettings_shows_zero cfg p :
  state (timer p) ≠ Idle →
  let '(p', v) := saveSettings cfg p in
  panelTimeText v = "00:00" ∧
  "minidoro-progress-complete" ∈ pieClasses v ∧
  "mode-disabled" ∈ panelModeClasses v ∧
  timer p' = timer p ∧
  window p' = window p ∧
  settings p' = cfg.
Proof.
  intros Hs. unfold saveSettings, updateUI, getState. simpl.
  rewrite (bool_decide_eq_false_2 (state (timer p) = Idle)) by done.
  simpl. split; [done|]. split; [set_solver|]. split; [set_solver|done].
Qed.

Lemma saveSettings_shows_zero_witness :
  let p := handlePauseResumeClick 0 (new_PomodoroPlugin DEFAULT_SETTINGS) in
  remainingTime (timer p) = 1500 ∧
  panelTimeText (snd (saveSettings auto_break_settings p)) = "00:00".
Proof.
  split; [reflexivity|].
  pose proof (saveSettings_shows_zero auto_break_settings
    (handlePauseResumeClick 0 (new_PomodoroPlugin DEFAULT_SETTINGS))
    ltac:(discriminate)) as H.
  destruct (saveSettings auto_break_settings
    (handlePauseResumeClick 0 (new_PomodoroPlugin DEFAULT_SETTINGS)))
    as [p' v] eqn:E.
  destruct H as [H _]. simpl. exact H.
Defined.

(** X18: the pie of a session.  While the engine is not [Idle] and the
    session total is positive, the progress is [remainingTime / totalTime]:
    it lies between 0 and 1 when the remaining time lies between 0 and the
    total, and the pie is marked complete exactly when no time remains.
    Without a positive total the progress is 0 and the pie is marked
    complete. *)
Theorem pie_progress p r tot :
  state (timer p) ≠ Idle →
  let v := updateUI p r tot in
  (0 < tot →
     (progress v == inject_Z r / inject_Z tot)%Q ∧
     ("minidoro-progress-complete" ∈ pieClasses v ↔ r ≤ 0) ∧
     (0 ≤ r ≤ tot → (0 <= progress v)%Q ∧ (progress v <= 1)%Q)) ∧
  (tot ≤ 0 →
     (progress v == 0)%Q ∧ "minidoro-progress-complete" ∈ pieClasses v) ∧
  "minidoro-progress-idle" ∉ pieClasses v.
Proof.
  intros Hs. cbn zeta. unfold updateUI, getState.
  rewrite (bool_decide_eq_false_2 (state (timer p) = Idle)) by done.
  destruct (bool_decide_reflect (0 < tot)) as [Ht|Ht]; simpl.
  - assert (Qle_bool (r # Z.to_pos tot) 0 = true ↔ r ≤ 0) as Hle.
    { unfold Qle_bool. simpl. rewrite Z.leb_le. lia. }
    split; [|split; [lia|]].
    + intros _. split; [|split].
      * unfold Qdiv, Qmult, Qinv, inject_Z, Qeq. simpl.
        destruct tot as [|t|t]; try lia. simpl. lia.
      * destruct (Qle_bool (r # Z.to_pos tot) 0) eqn:E.
        -- split; [intros _; by apply Hle|intros _; set_solver].
        -- split; [|intros Hr; apply Hle in Hr; congruence].
           destruct (bool_decide (currentMode p = Work));
             rewrite !elem_of_cons, elem_of_nil;
             intros [H|[]]; discriminate.
      * intros [H0 H1]. unfold Qle. simpl.
        rewrite Z2Pos.id by done. lia.
    + destruct (Qle_bool (r # Z.to_pos tot) 0);
        destruct (bool_decide (currentMode p = Work));
        rewrite ?elem_of_cons, ?elem_of_nil;
        intros H; repeat (destruct H as [H|H]; try discriminate); done.
  - split; [lia|]. split.
    + intros _. split; [reflexivity|]. simpl. set_solver.
    + simpl. destruct (bool_decide (currentMode p = Work));
        rewrite ?elem_of_cons, ?elem_of_nil;
        intros H; repeat (destruct H as [H|H]; try discriminate); done.
Qed.

Lemma pie_progress_witness :
  let p := handlePauseResumeClick 0 (new_PomodoroPlugin DEFAULT_SETTINGS) in
  (0 <= progress (updateUI p 750 1500))%Q ∧
  (progress (updateUI p 750 1500) <= 1)%Q.
Proof.
  destruct (pie_progress
    (handlePauseResumeClick 0 (new_PomodoroPlugin DEFAULT_SETTINGS))
    750 1500 ltac:(discriminate)) as [H _].
  destruct (H ltac:(lia)) as (_ & _ & Hb). apply Hb. lia.
Defined.

(** ** Unloading *)

(** X19: unloading stops the engine but not the sequencer.  [onunload]
    leaves the engine [Idle] with no live interval, yet it keeps the pending
    timeouts and a flagged completion; so an auto-start that was pending
    when the plugin was unloaded still starts the session of [nextMode] when
    it fires, with a new live interval. *)
Theorem unload_keeps_auto_start p i due now :
  plugin_reachable p →
  isSessionComplete p = true →
  timeouts p !! i = Some (due, AutoStart) →
  due ≤ now →
  let p' := onunload p in
  let p'' := fire_timeout i now p' in
  state (timer p') = Idle ∧
  live (window p') = ∅ ∧
  timeouts p' = timeouts p ∧
  isSessionComplete p' = true ∧
  currentMode p' = currentMode p ∧
  is_mode (state (timer p'')) ∧
  state (timer p'') = nextMode p ∧
  currentMode p'' = nextMode p ∧
  remainingTime (timer p'') = fresh_seconds (settings p) (nextMode p) ∧
  live (window p'') = {[ nextHandle (window p) ]}.
Proof.
  intros Hr Hf Hi Hdue. cbn zeta.
  destruct (reachable_inv _ _ (plugin_reachable_engine p Hr))
    as [_ _ Hl _ _].
  destruct (plugin_reachable_modes p Hr) as [_ Hn].
  assert (onunload p =
          set_engine
            {| state := Idle; prePauseState := prePauseState (timer p);
               remainingTime := 0; totalTime := 0; targetTime := None;
               intervalId := None |}
            {| live := ∅; nextHandle := nextHandle (window p) |}
            (set_isPanelPinned false p)) as ->.
  { unfold onunload.
    change stop with (run_call call_stop).
    rewrite (on_timer_quiet 0 call_stop (set_isPanelPinned false p)) by done.
    cbn [run_call]. simpl. rewrite stop_spec. unfold timer_of, window_of.
    simpl. do 2 f_equal. rewrite Hl. set_solver. }
  rewrite (fire_auto_start i due now) by done.
  simpl. rewrite (start_mode _ _ _ _ _ Hn). unfold timer_of, window_of.
  simpl. do 5 (split; [done|]). split; [done|]. do 3 (split; [done|]).
  set_solver.
Qed.

Lemma unload_keeps_auto_start_witness :
  let p := foldl plugin_step (new_PomodoroPlugin auto_break_settings)
             [PauseResumeClick 0; IntervalFires 1%positive 1500000] in
  state (timer (onunload p)) = Idle ∧
  state (timer (fire_timeout 0 1501000 (onunload p))) = ShortBreak.
Proof.
  destruct (unload_keeps_auto_start
    (plugin_step (plugin_step (new_PomodoroPlugin auto_break_settings)
                              (PauseResumeClick 0))
                 (IntervalFires 1%positive 1500000))
    0%nat 1501000 1501000)
    as (Hs & _ & _ & _ & _ & _ & Hm & _).
  - do 2 apply plugin_event. apply plugin_loaded.
  - reflexivity.
  - reflexivity.
  - lia.
  - split; [exact Hs|exact Hm].
Defined.
